(** * NodeModal: the node-edit pipeline of the graph view

    A shallow embedding of [src/features/modals/NodeModal/index.tsx]:
    [normalizeNodeData], [jsonPathToString], the edit handlers
    [startEdit], [cancelEdit], [saveEdit] and the reset effect of the
    [NodeModal] component, together with the fragment of ECMAScript the
    component relies on ([JSON.parse], [JSON.stringify], [Number],
    [Number.isFinite], template-literal stringification, [Array.join],
    property assignment on an object literal).

    Conventions.
    - A JavaScript string is represented by its UTF-8 encoding, as a
      [string] of bytes.  Every operation used by the component
      (equality, concatenation, emptiness, scanning for ASCII
      delimiters) commutes with that encoding; unpaired surrogates are
      the only strings without a representation.
    - A JavaScript number is an IEEE-754 binary64 value, represented by
      [spec_float] with precision 53 and maximal exponent 1024.
    - A [throw] is a value [inl e] of a sum; code that can change the
      stores runs in the monad [M] below, where the state survives a
      [throw]. *)

From Stdlib Require Import ZArith List String Ascii Bool Lia.
From Stdlib Require Import Floats.SpecFloat.
Import ListNotations.
Local Open Scope string_scope.
Local Open Scope Z_scope.

(** ** ECMAScript fragment *)

Module JS.

(** *** Strings *)

Definition code (c : ascii) : Z := Z.of_N (N_of_ascii c).

Definition chr (n : Z) : ascii := ascii_of_N (Z.to_N n).

Definition str1 (c : ascii) : string := String c EmptyString.

Fixpoint rev_append (s acc : string) : string :=
  match s with
  | EmptyString => acc
  | String c r => rev_append r (String c acc)
  end.

Definition is_empty (s : string) : bool :=
  match s with EmptyString => true | _ => false end.

(** The input after its first character, when that is the character
    with the code [n]. *)
Definition after_char (n : Z) (s : string) : option string :=
  match s with
  | String c r => if code c =? n then Some r else None
  | EmptyString => None
  end.

(** [arr.join(sep)] on an array of strings. *)
Fixpoint join (sep : string) (l : list string) : string :=
  match l with
  | [] => ""
  | [x] => x
  | x :: r => x ++ sep ++ join sep r
  end.

Definition is_digit (c : ascii) : bool := (48 <=? code c) && (code c <=? 57).

Definition digit_val (c : ascii) : Z := code c - 48.

(** Decimal digits of a non-negative integer, most significant first. *)
Fixpoint digits_fuel (fuel : nat) (n : Z) (acc : string) : string :=
  match fuel with
  | O => acc
  | S f =>
      let acc' := String (chr (48 + n mod 10)) acc in
      if n <? 10 then acc' else digits_fuel f (n / 10) acc'
  end.

Definition decimal (n : Z) : string :=
  digits_fuel (S (Z.to_nat (Z.log2 n))) n "".

(** *** Numbers *)

Definition number := spec_float.

Definition prec : Z := 53.
Definition emax : Z := 1024.

Definition pos_zero : number := S754_zero false.
Definition NaN : number := S754_nan.

(** [Number.isFinite(n)] for [n] of type number. *)
Definition Number_isFinite (n : number) : bool :=
  match n with
  | S754_zero _ | S754_finite _ _ _ => true
  | S754_infinity _ | S754_nan => false
  end.

(** The Number value for the mathematical value [m * 10^e10] (round to
    nearest, ties to even), with the sign [neg]. *)
Definition round_decimal (neg : bool) (m e10 : Z) : number :=
  match m with
  | Z0 => S754_zero neg
  | Zpos p =>
      if 0 <=? e10 then
        match Zpos p * 10 ^ e10 with
        | Zpos q => binary_round prec emax neg q 0
        | _ => S754_nan
        end
      else
        let '(q, e', l) := SFdiv_core_binary prec emax (Zpos p) 0 (10 ^ (- e10)) 0 in
        binary_round_aux prec emax neg q e' l
  | Zneg _ => S754_nan
  end.

(** The number for an integer, as written in the program text. *)
Definition of_Z (z : Z) : number :=
  round_decimal (z <? 0) (Z.abs z) 0.

(** *** [StringToNumber] (ECMA-262, 7.1.4.1.1)

    [StrWhiteSpaceChar] is a WhiteSpace or LineTerminator code point:
    TAB, LF, VT, FF, CR, SP in one byte; U+00A0 in two; U+1680,
    U+2000..U+200A, U+2028, U+2029, U+202F, U+205F, U+3000 and U+FEFF in
    three. *)

Definition ws1 (c : ascii) : bool :=
  let n := code c in ((9 <=? n) && (n <=? 13)) || (n =? 32).

Definition ws2 (c1 c2 : ascii) : bool :=
  (code c1 =? 194) && (code c2 =? 160).

Definition ws3 (c1 c2 c3 : ascii) : bool :=
  let a := code c1 in
  let b := code c2 in
  let c := code c3 in
  ((a =? 225) && (b =? 154) && (c =? 128))
  || ((a =? 226) && (b =? 128)
      && (((128 <=? c) && (c <=? 138)) || (c =? 168) || (c =? 169) || (c =? 175)))
  || ((a =? 226) && (b =? 129) && (c =? 159))
  || ((a =? 227) && (b =? 128) && (c =? 128))
  || ((a =? 239) && (b =? 187) && (c =? 191)).

(** Drops the leading [StrWhiteSpace]. *)
Fixpoint skip_StrWhiteSpace (s : string) : string :=
  match s with
  | EmptyString => s
  | String c1 r1 =>
      if ws1 c1 then skip_StrWhiteSpace r1
      else
        match r1 with
        | EmptyString => s
        | String c2 r2 =>
            if ws2 c1 c2 then skip_StrWhiteSpace r2
            else
              match r2 with
              | EmptyString => s
              | String c3 r3 =>
                  if ws3 c1 c2 c3 then skip_StrWhiteSpace r3 else s
              end
        end
  end.

(** A string that is [StrWhiteSpace] and nothing else. *)
Definition whitespace_only (s : string) : bool :=
  is_empty (skip_StrWhiteSpace s).

Fixpoint drop (n : nat) (s : string) : string :=
  match n, s with
  | S n', String _ r => drop n' r
  | _, _ => s
  end.

Fixpoint take (n : nat) (s : string) : string :=
  match n, s with
  | S n', String c r => String c (take n' r)
  | _, _ => ""
  end.

(** [DecimalDigits]: the value accumulated on [acc], the number of
    digits read added to [cnt], and the rest of the input. *)
Fixpoint read_digits (s : string) (acc cnt : Z) : Z * Z * string :=
  match s with
  | String c r =>
      if is_digit c then read_digits r (acc * 10 + digit_val c) (cnt + 1)
      else (acc, cnt, s)
  | EmptyString => (acc, cnt, s)
  end.

Definition radix_digit (radix : Z) (c : ascii) : option Z :=
  let n := code c in
  let v := if (48 <=? n) && (n <=? 57) then n - 48
           else if (97 <=? n) && (n <=? 102) then n - 87
           else if (65 <=? n) && (n <=? 70) then n - 55
           else radix in
  if v <? radix then Some v else None.

Fixpoint read_radix (radix : Z) (s : string) (acc cnt : Z) : Z * Z * string :=
  match s with
  | String c r =>
      match radix_digit radix c with
      | Some v => read_radix radix r (acc * radix + v) (cnt + 1)
      | None => (acc, cnt, s)
      end
  | EmptyString => (acc, cnt, s)
  end.

(** An optional sign: whether it is a minus, and the rest. *)
Definition read_sign (s : string) : bool * string :=
  match after_char 43 s with
  | Some r => (false, r)
  | None =>
      match after_char 45 s with
      | Some r => (true, r)
      | None => (false, s)
      end
  end.

(** [ExponentPart], when one is present at the head of [s]. *)
Definition read_exponent (s : string) : Z * string :=
  match s with
  | String c r =>
      if (code c =? 101) || (code c =? 69) then
        let '(neg, r1) := read_sign r in
        let '(v, n, r2) := read_digits r1 0 0 in
        if n =? 0 then (0, s) else (if neg then - v else v, r2)
      else (0, s)
  | EmptyString => (0, s)
  end.

(** [StrUnsignedDecimalLiteral] with the sign already read. *)
Definition read_unsigned_decimal (neg : bool) (s : string) : option (number * string) :=
  if prefix "Infinity" s then Some (S754_infinity neg, drop 8 s)
  else
    let '(vi, ni, r1) := read_digits s 0 0 in
    match r1 with
    | String "." r2 =>
        let '(vf, nf, r3) := read_digits r2 vi 0 in
        if (ni =? 0) && (nf =? 0) then None
        else
          let '(e, r4) := read_exponent r3 in
          Some (round_decimal neg vf (e - nf), r4)
    | _ =>
        if ni =? 0 then None
        else
          let '(e, r4) := read_exponent r1 in
          Some (round_decimal neg vi e, r4)
    end.

Definition read_non_decimal (radix : Z) (s : string) : option (number * string) :=
  let '(v, n, r) := read_radix radix s 0 0 in
  if n =? 0 then None else Some (round_decimal false v 0, r).

(** [StrNumericLiteral]: a non-decimal integer literal carries no sign. *)
Definition read_StrNumericLiteral (s : string) : option (number * string) :=
  match s with
  | String "0" (String c r) =>
      if (code c =? 120) || (code c =? 88) then read_non_decimal 16 r
      else if (code c =? 111) || (code c =? 79) then read_non_decimal 8 r
      else if (code c =? 98) || (code c =? 66) then read_non_decimal 2 r
      else read_unsigned_decimal false s
  | String "+" r => read_unsigned_decimal false r
  | String "-" r => read_unsigned_decimal true r
  | _ => read_unsigned_decimal false s
  end.

(** [Number(str)] for a string argument: white space alone is [+0], a
    [StrNumericLiteral] between white space is its rounded value, and
    everything else is [NaN]. *)
Definition StringToNumber (str : string) : number :=
  let s := skip_StrWhiteSpace str in
  if is_empty s then pos_zero
  else
    match read_StrNumericLiteral s with
    | Some (n, rest) => if whitespace_only rest then n else NaN
    | None => NaN
    end.

(** *** [Number::toString] (ECMA-262, 6.1.6.1.20), radix 10

    For a finite [x > 0] the digits are those of integers [n], [k], [s]
    with [10^(k-1) <= s < 10^k], with [s * 10^(n-k)] rounding to [x] and
    [k] as small as possible; among several [s] the closest to [x]. *)

Fixpoint zeros (n : nat) : string :=
  match n with
  | O => ""
  | S n' => String "0" (zeros n')
  end.

(** Numerator and denominator of [m * 2^e / 10^p]. *)
Definition scaled (m : positive) (e p : Z) : Z * Z :=
  (Zpos m * 2 ^ Z.max e 0 * 10 ^ Z.max (- p) 0,
   2 ^ Z.max (- e) 0 * 10 ^ Z.max p 0).

(** The least [n] from [n0] on with [m * 2^e < 10^n]. *)
Fixpoint magnitude (fuel : nat) (m : positive) (e n0 : Z) : Z :=
  match fuel with
  | O => n0
  | S f =>
      let '(num, den) := scaled m e n0 in
      if num <? den then n0 else magnitude f m e (n0 + 1)
  end.

(** The candidates [s] with [k] digits at the decimal exponent [n]:
    the two integers around [x / 10^(n-k)] that round back to [x],
    each with its distance to [x] in units of the denominator. *)
Definition candidates (x : number) (m : positive) (e k n : Z) : list (Z * Z) :=
  let '(num, den) := scaled m e (n - k) in
  let lo := num / den in
  filter
    (fun sd : Z * Z =>
       let s := fst sd in
       (10 ^ (k - 1) <=? s) && (s <? 10 ^ k)
       && SFeqb (round_decimal false s (n - k)) x)
    [(lo, num - lo * den); (lo + 1, (lo + 1) * den - num)].

Definition closest (l : list (Z * Z)) : option Z :=
  match l with
  | [] => None
  | [(s, _)] => Some s
  | (s1, d1) :: (s2, d2) :: _ => Some (if d2 <? d1 then s2 else s1)
  end.

Fixpoint shortest (fuel : nat) (x : number) (m : positive) (e k n0 : Z) : Z * Z * Z :=
  match fuel with
  | O => (0, k, n0)
  | S f =>
      match closest (candidates x m e k n0) with
      | Some s => (s, k, n0)
      | None =>
          match closest (candidates x m e k (n0 + 1)) with
          | Some s => (s, k, n0 + 1)
          | None => shortest f x m e (k + 1) n0
          end
      end
  end.

Definition format_number (s : string) (k n : Z) : string :=
  if (-5 <=? n) && (n <=? 21) then
    if k <=? n then s ++ zeros (Z.to_nat (n - k))
    else if 0 <? n then take (Z.to_nat n) s ++ "." ++ drop (Z.to_nat n) s
    else "0." ++ zeros (Z.to_nat (- n)) ++ s
  else
    let e := n - 1 in
    let es := (if e <? 0 then "-" else "+") ++ decimal (Z.abs e) in
    if k =? 1 then s ++ "e" ++ es
    else take 1 s ++ "." ++ drop 1 s ++ "e" ++ es.

Definition Number_toString (x : number) : string :=
  match x with
  | S754_nan => "NaN"
  | S754_zero _ => "0"
  | S754_infinity neg => if neg then "-Infinity" else "Infinity"
  | S754_finite neg m e =>
      let est := (Zdigits2 (Zpos m) + e) * 1233 / 4096 in
      let n0 := magnitude 5 m e (est - 1) in
      let '(s, k, n) := shortest 17 (S754_finite false m e) m e 1 n0 in
      (if neg then "-" else "") ++ format_number (decimal s) k n
  end.

(** *** Values, objects and exceptions *)

(** The values [JSON.parse] produces.  An object is the list of its own
    properties in enumeration order. *)
#[warnings="-register-all"]
Inductive JSValue : Type :=
| VNull
| VBool (b : bool)
| VNum (n : number)
| VStr (s : string)
| VArr (elems : list JSValue)
| VObj (members : list (string * JSValue)).

(** A thrown value: an [Error] object with its name and message. *)
Inductive error : Type :=
| Error (name message : string).

Definition result (A : Type) : Type := (error + A)%type.

(** An array index is the canonical decimal form of an integer in
    [0, 2^32 - 2]. *)
Definition array_index (k : string) : option Z :=
  match k with
  | EmptyString => None
  | String c r =>
      if (code c =? 48) && negb (is_empty r) then None
      else
        let '(v, _, rest) := read_digits k 0 0 in
        if is_empty rest && (v <=? 4294967294) then Some v else None
  end.

Section Properties.
Context {A : Type}.

Fixpoint has_own (k : string) (ps : list (string * A)) : bool :=
  match ps with
  | [] => false
  | (k', _) :: r => (k =? k')%string || has_own k r
  end.

Fixpoint replace_own (k : string) (v : A) (ps : list (string * A)) : list (string * A) :=
  match ps with
  | [] => []
  | (k', v') :: r =>
      if (k =? k')%string then (k', v) :: r else (k', v') :: replace_own k v r
  end.

(** A new array-index key goes before the first key that is not an
    array index or is a larger one. *)
Fixpoint insert_index (i : Z) (k : string) (v : A) (ps : list (string * A)) : list (string * A) :=
  match ps with
  | [] => [(k, v)]
  | (k', v') :: r =>
      match array_index k' with
      | Some j => if j <? i then (k', v') :: insert_index i k v r else (k, v) :: ps
      | None => (k, v) :: ps
      end
  end.

(** [CreateDataProperty]: an existing key keeps its place and takes
    the new value; own keys enumerate array indices first, in
    ascending order, then the other keys in creation order. *)
Definition define_own (k : string) (v : A) (ps : list (string * A)) : list (string * A) :=
  if has_own k ps then replace_own k v ps
  else
    match array_index k with
    | Some i => insert_index i k v ps
    | None => ps ++ [(k, v)]
    end.
(** The value of the own property [k]. *)
Fixpoint get_own (k : string) (ps : list (string * A)) : option A :=
  match ps with
  | [] => None
  | (k', v) :: r => if (k =? k')%string then Some v else get_own k r
  end.

End Properties.

(** *** [JSON.parse] (ECMA-262, 25.5.1; grammar of ECMA-404) *)

Definition json_ws (c : ascii) : bool :=
  let n := code c in (n =? 32) || (n =? 9) || (n =? 10) || (n =? 13).

Fixpoint skip_json_ws (s : string) : string :=
  match s with
  | String c r => if json_ws c then skip_json_ws r else s
  | EmptyString => s
  end.

(** UTF-8 encoding of a code point. *)
Definition utf8 (cp : Z) : string :=
  if cp <? 128 then str1 (chr cp)
  else if cp <? 2048 then
    String (chr (192 + cp / 64)) (str1 (chr (128 + cp mod 64)))
  else if cp <? 65536 then
    String (chr (224 + cp / 4096))
      (String (chr (128 + (cp / 64) mod 64)) (str1 (chr (128 + cp mod 64))))
  else
    String (chr (240 + cp / 262144))
      (String (chr (128 + (cp / 4096) mod 64))
         (String (chr (128 + (cp / 64) mod 64)) (str1 (chr (128 + cp mod 64))))).

(** Four hexadecimal digits. *)
Definition read_hex4 (s : string) : option (Z * string) :=
  match s with
  | String a (String b (String c (String d r))) =>
      match radix_digit 16 a, radix_digit 16 b, radix_digit 16 c, radix_digit 16 d with
      | Some x, Some y, Some z, Some w => Some (((x * 16 + y) * 16 + z) * 16 + w, r)
      | _, _, _, _ => None
      end
  | _ => None
  end.

(** The code point of a [\u] escape whose four digits gave [hi]: a
    leading surrogate followed by an escaped trailing one is one code
    point. *)
Definition read_unicode (hi : Z) (s : string) : Z * string :=
  if (55296 <=? hi) && (hi <=? 56319) then
    match after_char 92 s with
    | Some r1 =>
        match after_char 117 r1 with
        | Some r2 =>
            match read_hex4 r2 with
            | Some (lo, r') =>
                if (56320 <=? lo) && (lo <=? 57343)
                then (65536 + (hi - 55296) * 1024 + (lo - 56320), r')
                else (hi, s)
            | None => (hi, s)
            end
        | None => (hi, s)
        end
    | None => (hi, s)
    end
  else (hi, s).

(** The character a two-character escape stands for, by the code of
    its second character: a double quote, a backslash, a slash, b, f,
    n, r or t. *)
Definition escape_char (n : Z) : option Z :=
  if n =? 34 then Some 34
  else if n =? 92 then Some 92
  else if n =? 47 then Some 47
  else if n =? 98 then Some 8
  else if n =? 102 then Some 12
  else if n =? 110 then Some 10
  else if n =? 114 then Some 13
  else if n =? 116 then Some 9
  else None.

(** The characters of a string literal after its opening quote; [acc]
    holds the decoded text in reverse. *)
Fixpoint read_string (fuel : nat) (s acc : string) : option (string * string) :=
  match fuel with
  | O => None
  | S f =>
      match s with
      | EmptyString => None
      | String c r =>
          if code c =? 34 then Some (rev_append acc "", r)
          else if code c <? 32 then None
          else if code c =? 92 then
            match r with
            | String e r' =>
                match escape_char (code e) with
                | Some b => read_string f r' (String (chr b) acc)
                | None =>
                    if code e =? 117 then
                      match read_hex4 r' with
                      | Some (hi, r'') =>
                          let '(cp, r3) := read_unicode hi r'' in
                          read_string f r3 (rev_append (utf8 cp) acc)
                      | None => None
                      end
                    else None
                end
            | EmptyString => None
            end
          else read_string f r (String c acc)
      end
  end.

(** A JSON number: an optional minus sign; the integer part, a single
    zero or digits that do not start with zero; an optional fraction of
    a point and one digit or more; an optional exponent. *)
Definition read_json_number (s : string) : option (number * string) :=
  let '(neg, s1) :=
    match after_char 45 s with
    | Some r => (true, r)
    | None => (false, s)
    end in
  let '(vi, ni, r1) :=
    match after_char 48 s1 with
    | Some r => (0, 1, r)
    | None => read_digits s1 0 0
    end in
  if ni =? 0 then None
  else
    match after_char 46 r1 with
    | Some r2 =>
        let '(vf, nf, r3) := read_digits r2 vi 0 in
        if nf =? 0 then None
        else
          let '(e, r4) := read_exponent r3 in
          Some (round_decimal neg vf (e - nf), r4)
    | None =>
        let '(e, r4) := read_exponent r1 in
        Some (round_decimal neg vi e, r4)
    end.

(** [parse_value] reads one JSON value at the head of the input,
    [parse_elements] the rest of an array after its first element,
    [parse_member] a key, a colon and a value, and [parse_members] the
    rest of an object after its first member.  The first character
    tells the kind of value: n, t, f, a double quote, an opening bracket
    or brace, and a number otherwise. *)
Fixpoint parse_value (fuel : nat) (s : string) : option (JSValue * string) :=
  match fuel with
  | O => None
  | S f =>
      match s with
      | EmptyString => None
      | String c r =>
          if code c =? 110 then
            if prefix "null" s then Some (VNull, drop 4 s) else None
          else if code c =? 116 then
            if prefix "true" s then Some (VBool true, drop 4 s) else None
          else if code c =? 102 then
            if prefix "false" s then Some (VBool false, drop 5 s) else None
          else if code c =? 34 then
            match read_string (S (String.length r)) r "" with
            | Some (str, r') => Some (VStr str, r')
            | None => None
            end
          else if code c =? 91 then
            match after_char 93 (skip_json_ws r) with
            | Some r' => Some (VArr [], r')
            | None =>
                match parse_value f (skip_json_ws r) with
                | Some (v, r1) =>
                    match parse_elements f (skip_json_ws r1) [v] with
                    | Some (l, r2) => Some (VArr l, r2)
                    | None => None
                    end
                | None => None
                end
            end
          else if code c =? 123 then
            match after_char 125 (skip_json_ws r) with
            | Some r' => Some (VObj [], r')
            | None =>
                match parse_member f (skip_json_ws r) with
                | Some (k, v, r1) =>
                    match parse_members f (skip_json_ws r1) (define_own k v []) with
                    | Some (ps, r2) => Some (VObj ps, r2)
                    | None => None
                    end
                | None => None
                end
            end
          else
            match read_json_number s with
            | Some (n, r') => Some (VNum n, r')
            | None => None
            end
      end
  end

with parse_elements (fuel : nat) (s : string) (acc : list JSValue)
  : option (list JSValue * string) :=
  match fuel with
  | O => None
  | S f =>
      match after_char 93 s with
      | Some r => Some (acc, r)
      | None =>
          match after_char 44 s with
          | Some r =>
              match parse_value f (skip_json_ws r) with
              | Some (v, r1) => parse_elements f (skip_json_ws r1) (acc ++ [v])
              | None => None
              end
          | None => None
          end
      end
  end

with parse_member (fuel : nat) (s : string) : option (string * JSValue * string) :=
  match fuel with
  | O => None
  | S f =>
      match after_char 34 s with
      | Some r =>
          match read_string (S (String.length r)) r "" with
          | Some (k, r1) =>
              match after_char 58 (skip_json_ws r1) with
              | Some r2 =>
                  match parse_value f (skip_json_ws r2) with
                  | Some (v, r3) => Some (k, v, r3)
                  | None => None
                  end
              | None => None
              end
          | None => None
          end
      | None => None
      end
  end

with parse_members (fuel : nat) (s : string) (acc : list (string * JSValue))
  : option (list (string * JSValue) * string) :=
  match fuel with
  | O => None
  | S f =>
      match after_char 125 s with
      | Some r => Some (acc, r)
      | None =>
          match after_char 44 s with
          | Some r =>
              match parse_member f (skip_json_ws r) with
              | Some (k, v, r1) => parse_members f (skip_json_ws r1) (define_own k v acc)
              | None => None
              end
          | None => None
          end
      end
  end.

(** [JSON.parse(text)]: the value of the text, or a thrown
    [SyntaxError].  The parsers read at least one character for each
    unit of fuel they use, so the fuel given here is never used up. *)
Definition JSON_parse (text : string) : result JSValue :=
  match parse_value (S (3 * String.length text)) (skip_json_ws text) with
  | Some (v, rest) =>
      if is_empty (skip_json_ws rest) then inr v
      else inl (Error "SyntaxError" "Unexpected non-whitespace character after JSON")
  | None => inl (Error "SyntaxError" "Unexpected token or end of JSON input")
  end.

(** *** Primitive values, template literals and [JSON.stringify] *)

(** The scalar values of a JSON document. *)
Inductive Primitive : Type :=
| PNull
| PBool (b : bool)
| PNum (n : number)
| PStr (s : string).

(** [ToString(v)], as a template literal and [Array.join] apply it. *)
Definition ToString (v : Primitive) : string :=
  match v with
  | PNull => "null"
  | PBool true => "true"
  | PBool false => "false"
  | PNum n => Number_toString n
  | PStr s => s
  end.

(** The double quote and the line feed. *)
Definition dq : string := str1 (chr 34).
Definition nl : string := str1 (chr 10).

Definition hex_digit (n : Z) : ascii :=
  chr (if n <? 10 then 48 + n else 87 + n).

(** The body of [QuoteJSONString]: the two-character escapes, [\u00xx]
    for the other control characters, everything else as it is. *)
Fixpoint quote_chars (s : string) : string :=
  match s with
  | EmptyString => ""
  | String c r =>
      let n := code c in
      (if n =? 8 then "\b"
       else if n =? 9 then "\t"
       else if n =? 10 then "\n"
       else if n =? 12 then "\f"
       else if n =? 13 then "\r"
       else if n =? 34 then String "\" dq
       else if n =? 92 then "\\"
       else if n <? 32 then
         "\u00" ++ String (hex_digit (n / 16)) (str1 (hex_digit (n mod 16)))
       else str1 c)
      ++ quote_chars r
  end.

Definition QuoteJSONString (s : string) : string :=
  dq ++ quote_chars s ++ dq.

(** [SerializeJSONProperty] on a primitive: a number that is not finite
    is written [null]. *)
Definition SerializeJSONProperty (v : Primitive) : string :=
  match v with
  | PNull => "null"
  | PBool true => "true"
  | PBool false => "false"
  | PStr s => QuoteJSONString s
  | PNum n => if Number_isFinite n then Number_toString n else "null"
  end.

(** An object created by the literal [{}] and filled by assignments of
    primitives: its own properties in enumeration order, and whether its
    prototype has been set to [null]. *)
Record object : Type := {
  proto_null : bool;
  own_props : list (string * Primitive)
}.

Definition empty_object : object :=
  {| proto_null := false; own_props := [] |}.

(** [obj[k] = v].  An own property is overwritten.  Otherwise the key
    [__proto__] reaches the accessor inherited from [Object.prototype],
    whose setter changes the prototype for [null], does nothing for any
    other primitive and creates no property; every other key, and
    [__proto__] once the prototype is [null], becomes a new own
    property. *)
Definition set_property (k : string) (v : Primitive) (o : object) : object :=
  if has_own k (own_props o) then
    {| proto_null := proto_null o; own_props := replace_own k v (own_props o) |}
  else if (k =? "__proto__")%string && negb (proto_null o) then
    match v with
    | PNull => {| proto_null := true; own_props := own_props o |}
    | _ => o
    end
  else {| proto_null := proto_null o; own_props := define_own k v (own_props o) |}.

Fixpoint spaces (n : nat) : string :=
  match n with
  | O => ""
  | S n' => String " " (spaces n')
  end.

(** [JSON.stringify(obj, null, space)] for a number [space]: the gap is
    [space] blanks, at most ten. *)
Definition JSON_stringify (o : object) (space : Z) : string :=
  let gap := spaces (Z.to_nat (Z.min 10 space)) in
  let member (kv : string * Primitive) :=
    QuoteJSONString (fst kv) ++ ":" ++ (if is_empty gap then "" else " ")
    ++ SerializeJSONProperty (snd kv) in
  match map member (own_props o) with
  | [] => "{}"
  | partial =>
      if is_empty gap then "{" ++ join "," partial ++ "}"
      else "{" ++ nl ++ gap ++ join ("," ++ nl ++ gap) partial ++ nl ++ "}"
  end.

End JS.

(** ** The interface of jsonc-parser

    [modify] and [applyEdits] are functions of the third-party package
    [jsonc-parser]; the component sees their types only. *)

Module Jsonc.

(** A path segment is a string (a property name) or a number (an array
    index). *)
Inductive Segment : Type :=
| Key (s : string)
| Index (n : JS.number).

Definition JSONPath : Type := list Segment.

Record Edit : Type := {
  offset : Z;
  length : Z;
  content : string
}.

Record FormattingOptions : Type := {
  insertSpaces : bool;
  tabSize : Z
}.

Record ModificationOptions : Type := {
  formattingOptions : FormattingOptions
}.

End Jsonc.

(** ** The component *)

Module NodeModal.
Import JS.
Export Jsonc.

(** Modelled from the spec: the declarations of [NodeRow] and [NodeData]
    in [types/graph], which the component imports.  A row has an
    optional key, a value and a declared type; the value of a row is
    taken to be a scalar of the document.  [text] and [path] may be
    absent, as the guards of the component allow. *)
Record NodeRow : Type := {
  key : option string;
  value : Primitive;
  type : string
}.

Record NodeData : Type := {
  id : string;
  text : option (list NodeRow);
  path : option JSONPath
}.

(** [!row.key]: an absent key and the empty string are both falsy. *)
Definition falsy_key (k : option string) : bool :=
  match k with
  | None => true
  | Some s => is_empty s
  end.

(** [normalizeNodeData], lines 13-24.  The [forEach] assigns the rows in
    order to the object [obj]. *)
Definition assign_row (obj : object) (row : NodeRow) : object :=
  if negb (type row =? "array")%string && negb (type row =? "object")%string then
    if falsy_key (key row) then obj
    else
      match key row with
      | Some k => set_property k (value row) obj
      | None => obj
      end
  else obj.

Definition normalizeNodeData (nodeRows : option (list NodeRow)) : string :=
  match nodeRows with
  | None | Some [] => "{}"
  | Some ((row0 :: _) as rows) =>
      if Nat.eqb (List.length rows) 1 && falsy_key (key row0)
      then ToString (value row0)
      else JSON_stringify (fold_left assign_row rows empty_object) 2
  end.

(** [jsonPathToString], lines 27-31.  A number segment is left as it is
    by the [map] and turned into text by [join]. *)
Definition segment_text (seg : Segment) : string :=
  match seg with
  | Index n => Number_toString n
  | Key s => dq ++ s ++ dq
  end.

Definition jsonPathToString (path : option JSONPath) : string :=
  match path with
  | None | Some [] => "$"
  | Some segs => "$[" ++ join "][" (map segment_text segs) ++ "]"
  end.

(** *** Collaborators

    The stores [useJson] and [useFile] and the functions of
    jsonc-parser are outside the component, and each of their
    functions may throw.  [Store] is the state of the stores; [getJson]
    reads it; [setJson] and [setContents] change it, and when they
    throw the state is the one they left behind. *)

Record FileUpdate : Type := {
  contents : string;
  hasChanges : bool;
  skipUpdate : bool
}.

Class Host (Store : Type) : Type := {
  getJson : Store -> result string;
  setJson : string -> Store -> result unit * Store;
  setContents : FileUpdate -> Store -> result unit * Store;
  modify : string -> JSONPath -> JSValue -> ModificationOptions -> result (list Edit);
  applyEdits : string -> list Edit -> result string
}.

(** What the component does to its surroundings, in the order it does
    it. *)
Inductive Call : Type :=
| Call_getJson
| Call_modify (text : string) (p : JSONPath) (v : JSValue) (options : ModificationOptions)
| Call_applyEdits (text : string) (edits : list Edit)
| Call_setContents (u : FileUpdate)
| Call_setJson (json : string)
| Call_console_error (message : string) (err : error)
| Call_onClose.

(** [ModalProps]: the component reads [opened] and [onClose].  The
    handler is the parent's and is called as [onClose?.()]: it may be
    absent, and when it is there the component sees of a call only
    whether it returns or throws. *)
Inductive Handler : Type :=
| Returns
| Throws (e : error).

Record Props : Type := {
  opened : bool;
  onClose : option Handler
}.

Section Component.
Context {Store : Type} `{Host Store}.

(** The state a handler runs in: the stores, the two [useState] cells
    and the calls made so far. *)
Record World : Type := {
  store : Store;
  editing : bool;
  editedValue : string;
  calls : list Call
}.

(** Computations that change the world and either return or throw; the
    world a [throw] leaves behind is kept. *)
Definition M (A : Type) : Type := World -> result A * World.

Definition ret {A : Type} (a : A) : M A := fun w => (inr a, w).

Definition bind {A B : Type} (m : M A) (k : A -> M B) : M B :=
  fun w =>
    match m w with
    | (inr a, w') => k a w'
    | (inl e, w') => (inl e, w')
    end.

Definition try_catch {A : Type} (body : M A) (handler : error -> M A) : M A :=
  fun w =>
    match body w with
    | (inr a, w') => (inr a, w')
    | (inl e, w') => handler e w'
    end.

(** A pure call that returns or throws. *)
Definition lift {A : Type} (r : result A) : M A := fun w => (r, w).

Definition log (c : Call) (w : World) : World :=
  {| store := store w; editing := editing w; editedValue := editedValue w;
     calls := calls w ++ [c] |}.

Definition with_store (s : Store) (w : World) : World :=
  {| store := s; editing := editing w; editedValue := editedValue w;
     calls := calls w |}.

Definition setEditing (b : bool) : M unit :=
  fun w =>
    (inr tt, {| store := store w; editing := b; editedValue := editedValue w;
                calls := calls w |}).

Definition setEditedValue (s : string) : M unit :=
  fun w =>
    (inr tt, {| store := store w; editing := editing w; editedValue := s;
                calls := calls w |}).

Definition call_getJson : M string :=
  fun w => (getJson (store w), log Call_getJson w).

Definition call_setJson (json : string) : M unit :=
  fun w =>
    let '(r, s) := setJson json (store w) in
    (r, with_store s (log (Call_setJson json) w)).

Definition call_setContents (u : FileUpdate) : M unit :=
  fun w =>
    let '(r, s) := setContents u (store w) in
    (r, with_store s (log (Call_setContents u) w)).

Definition call_modify (text : string) (p : JSONPath) (v : JSValue)
    (options : ModificationOptions) : M (list Edit) :=
  fun w => (modify text p v options, log (Call_modify text p v options) w).

Definition call_applyEdits (text : string) (edits : list Edit) : M string :=
  fun w => (applyEdits text edits, log (Call_applyEdits text edits) w).

Definition console_error (message : string) (err : error) : M unit :=
  fun w => (inr tt, log (Call_console_error message err) w).

(** [onClose?.()] *)
Definition call_onClose (p : Props) : M unit :=
  fun w =>
    match onClose p with
    | None => (inr tt, w)
    | Some Returns => (inr tt, log Call_onClose w)
    | Some (Throws e) => (inl e, log Call_onClose w)
    end.

Notation "x <- m ;; k" := (bind m (fun x => k))
  (at level 61, m at next level, right associativity).
Notation "m ;; k" := (bind m (fun _ => k))
  (at level 61, right associativity).

(** What the handlers of one render close over: the props, the selected
    node and the values of the two state cells at that render. *)
Record Render : Type := {
  props : Props;
  nodeData : option NodeData;
  seen_editing : bool;
  seen_editedValue : string
}.

(** [nodeData?.text ?? []] *)
Definition rows_of (nodeData : option NodeData) : list NodeRow :=
  match nodeData with
  | Some nd =>
      match text nd with
      | Some rows => rows
      | None => []
      end
  | None => []
  end.

(** Line 43. *)
Definition initialContent (r : Render) : string :=
  normalizeNodeData (Some (rows_of (nodeData r))).

(** Lines 46-49. *)
Definition startEdit (r : Render) : M unit :=
  setEditedValue (initialContent r) ;;
  setEditing true.

(** Lines 51-54. *)
Definition cancelEdit : M unit :=
  setEditedValue "" ;;
  setEditing false.

(** Line 70: the first row of the node, when it has one. *)
Definition firstRow (nd : NodeData) : option NodeRow :=
  match text nd with
  | Some (row :: _) => Some row
  | _ => None
  end.

(** Lines 71-87: the value chosen when the text is not JSON. *)
Definition coerce (editedValue : string) (first : option NodeRow) : JSValue :=
  match first with
  | Some row =>
      if (type row =? "string")%string then VStr editedValue
      else if (type row =? "number")%string then
        let n := StringToNumber editedValue in
        if Number_isFinite n then VNum n else VStr editedValue
      else if (type row =? "boolean")%string then VBool (editedValue =? "true")%string
      else if (type row =? "null")%string then VNull
      else VStr editedValue
  | None => VStr editedValue
  end.

(** Lines 63-88: the value to write for the edited text. *)
Definition parseEdit (editedValue : string) (nd : NodeData) : M JSValue :=
  try_catch
    (lift (JSON_parse editedValue))
    (fun _ => ret (coerce editedValue (firstRow nd))).

(** Line 57: the node and its path, unless [!nodeData || !nodeData.path]. *)
Definition selection (nodeData : option NodeData) : option (NodeData * JSONPath) :=
  match nodeData with
  | Some nd =>
      match path nd with
      | Some p => Some (nd, p)
      | None => None
      end
  | None => None
  end.

Definition modify_options : ModificationOptions :=
  {| formattingOptions := {| insertSpaces := true; tabSize := 2 |} |}.

(** Lines 56-115. *)
Definition saveEdit (r : Render) : M unit :=
  match selection (nodeData r) with
  | None => cancelEdit
  | Some (nd, p) =>
      original <- call_getJson ;;
      newValue <- parseEdit (seen_editedValue r) nd ;;
      try_catch
        (edits <- call_modify original p newValue modify_options ;;
         newJson <- call_applyEdits original edits ;;
         try_catch
           (call_setContents
              {| contents := newJson; hasChanges := true; skipUpdate := true |})
           (fun _ => ret tt) ;;
         call_setJson newJson)
        (fun err => console_error "Failed to apply node edit:" err) ;;
      setEditing false ;;
      call_onClose (props r)
  end.

(** Lines 119-122: the effect and its dependencies [nodeData?.id] and
    [opened]. *)
Definition resetEffect : M unit :=
  setEditing false ;;
  setEditedValue "".

Definition Deps : Type := (option string * bool)%type.

Definition deps_of (p : Props) (nodeData : option NodeData) : Deps :=
  (option_map id nodeData, opened p).

Definition deps_eqb (a b : Deps) : bool :=
  match fst a, fst b with
  | Some x, Some y => (x =? y)%string
  | None, None => true
  | _, _ => false
  end
  && Bool.eqb (snd a) (snd b).

(** Lines 133-138: the close button. *)
Definition closeClick (r : Render) : M unit :=
  (if seen_editing r then cancelEdit else ret tt) ;;
  call_onClose (props r).

(** Line 146: the text area. *)
Definition onChange (s : string) : M unit := setEditedValue s.

(** *** The mounted component

    An instance is the world together with the inputs of the last render
    and the dependencies the effect last ran with ([None] before the
    first commit). *)
Record Instance : Type := {
  world : World;
  current : Props;
  selectedNode : option NodeData;
  last_deps : option Deps
}.

Definition render (i : Instance) : Render :=
  {| props := current i; nodeData := selectedNode i;
     seen_editing := editing (world i); seen_editedValue := editedValue (world i) |}.

(** The instance after a handler ran.  When the handler throws, the
    throw goes to React, and the state it set before stays set. *)
Definition after (m : M unit) (i : Instance) : Instance :=
  {| world := snd (m (world i)); current := current i;
     selectedNode := selectedNode i; last_deps := last_deps i |}.

(** After a render React runs the effect when a dependency differs from
    the one of the previous commit, and on the first commit. *)
Definition commit (i : Instance) : Instance :=
  let d := deps_of (current i) (selectedNode i) in
  let changed :=
    match last_deps i with
    | Some d0 => negb (deps_eqb d0 d)
    | None => true
    end in
  {| world := if changed then snd (resetEffect (world i)) else world i;
     current := current i; selectedNode := selectedNode i; last_deps := Some d |}.

(** What can happen to a mounted component: the graph selects a node,
    the parent passes new props, or the user acts on what is shown (the
    Edit button when not editing; the text area, Cancel and Save when
    editing; the close button always). *)
Inductive Event : Type :=
| Select (n : option NodeData)
| SetProps (p : Props)
| ClickEdit
| Input (s : string)
| ClickCancel
| ClickSave
| ClickClose.

Definition handle (e : Event) (i : Instance) : Instance :=
  let shown := editing (world i) in
  match e with
  | Select n =>
      {| world := world i; current := current i; selectedNode := n;
         last_deps := last_deps i |}
  | SetProps p =>
      {| world := world i; current := p; selectedNode := selectedNode i;
         last_deps := last_deps i |}
  | ClickEdit => if shown then i else after (startEdit (render i)) i
  | Input s => if shown then after (onChange s) i else i
  | ClickCancel => if shown then after cancelEdit i else i
  | ClickSave => if shown then after (saveEdit (render i)) i else i
  | ClickClose => after (closeClick (render i)) i
  end.

Definition step (i : Instance) (e : Event) : Instance := commit (handle e i).

Definition run (evs : list Event) (i : Instance) : Instance :=
  fold_left step evs i.

(** The instance after its first render and commit. *)
Definition mount (s : Store) (p : Props) (n : option NodeData) : Instance :=
  commit
    {| world := {| store := s; editing := false; editedValue := ""; calls := [] |};
       current := p; selectedNode := n; last_deps := None |}.

End Component.

End NodeModal.

(** ** A scripted host

    The collaborators of a test run: the two stores hold the canonical
    text and the last update of the mirrored editor; [modify],
    [applyEdits], [setContents] and [setJson] answer as scripted, and a
    store setter that throws leaves its store as it was. *)

Module Scenario.
Import JS NodeModal.

Record Stores : Type := {
  json : string;
  file : option FileUpdate
}.

Definition scripted (m : result (list Edit)) (a : result string)
    (sc sj : result unit) : Host Stores :=
  {| getJson := fun s => inr (json s);
     setJson := fun j s =>
       (sj, match sj with
            | inr _ => {| json := j; file := file s |}
            | inl _ => s
            end);
     setContents := fun u s =>
       (sc, match sc with
            | inr _ => {| json := json s; file := Some u |}
            | inl _ => s
            end);
     modify := fun _ _ _ _ => m;
     applyEdits := fun _ _ => a |}.

Definition quoted (s : string) : string := dq ++ s ++ dq.

(** The document [{"a":{"b":1}}], the node at the path [a], [b], and the
    same document with 2 in the place of 1. *)
Definition doc1 : string := "{" ++ quoted "a" ++ ":{" ++ quoted "b" ++ ":1}}".
Definition doc2 : string := "{" ++ quoted "a" ++ ":{" ++ quoted "b" ++ ":2}}".

Definition node_b : NodeData :=
  {| id := "2";
     text := Some [ {| key := None; value := PNum (of_Z 1); type := "number" |} ];
     path := Some [Key "a"; Key "b"] |}.

Definition edit_b : list Edit :=
  [ {| offset := 10; length := 1; content := "2" |} ].

Definition oops : error := Error "Error" "Can not add index to parent of type number".

Definition idle (doc : string) : @World Stores :=
  {| store := {| json := doc; file := None |};
     editing := false; editedValue := ""; calls := [] |}.

Definition typing (doc draft : string) : @World Stores :=
  {| store := {| json := doc; file := None |};
     editing := true; editedValue := draft; calls := [] |}.

(** The hosts of three runs: the patch succeeds and both stores take
    it; the patch succeeds and the mirrored editor throws; [modify]
    throws. *)
Definition host_ok : Host Stores :=
  scripted (inr edit_b) (inr doc2) (inr tt) (inr tt).

Definition host_mirror_throws : Host Stores :=
  scripted (inr edit_b) (inr doc2) (inl (Error "Error" "editor is gone")) (inr tt).

Definition host_patch_throws : Host Stores :=
  scripted (inl oops) (inr doc2) (inr tt) (inr tt).

Definition overlap : error := Error "Error" "Overlapping edit".

Definition host_apply_throws : Host Stores :=
  scripted (inr edit_b) (inl overlap) (inr tt) (inr tt).

(** A node of declared type [null]. *)
Definition node_null : NodeData :=
  {| id := "6";
     text := Some [ {| key := None; value := PNull; type := "null" |} ];
     path := Some [Key "gone"] |}.


(** A node of declared type [boolean], and a node without a path. *)
Definition node_flag : NodeData :=
  {| id := "4";
     text := Some [ {| key := None; value := PBool false; type := "boolean" |} ];
     path := Some [Key "flag"] |}.

Definition node_lost : NodeData :=
  {| id := "5"; text := Some []; path := None |}.

Definition open_props : Props := {| opened := true; onClose := Some Returns |}.

(** A store that cannot be read, and a parent whose handler throws. *)
Definition unreadable : error := Error "Error" "store is gone".

Definition host_unreadable : Host Stores :=
  {| getJson := fun _ => inl unreadable;
     setJson := fun j s => (inr tt, {| json := j; file := file s |});
     setContents := fun u s => (inr tt, {| json := json s; file := Some u |});
     modify := fun _ _ _ _ => inr edit_b;
     applyEdits := fun _ _ => inr doc2 |}.

Definition unmounted : error := Error "Error" "parent is gone".

Definition throwing_props : Props :=
  {| opened := true; onClose := Some (Throws unmounted) |}.

Definition shown (w : @World Stores) (n : option NodeData) : Render :=
  {| props := open_props; nodeData := n;
     seen_editing := editing w; seen_editedValue := editedValue w |}.

(** The modal open on the node [b] of the first document, the user in
    the middle of an edit with the draft [2]. *)
Definition editing_b : @Instance Stores :=
  {| world := typing doc1 "2"; current := open_props;
     selectedNode := Some node_b;
     last_deps := Some (deps_of open_props (Some node_b)) |}.

(** The rows of the object with the members [""] (the empty key) and
    [a], both strings, and the rows of an object whose first member is
    named [__proto__]. *)
Definition row_empty_key : NodeRow :=
  {| key := Some ""; value := PStr "x"; type := "string" |}.

Definition row_a : NodeRow :=
  {| key := Some "a"; value := PStr "y"; type := "string" |}.

Definition row_proto : NodeRow :=
  {| key := Some "__proto__"; value := PStr "z"; type := "string" |}.

Definition row_items : NodeRow :=
  {| key := Some "items"; value := PStr "[2 items]"; type := "array" |}.

Definition row_count : NodeRow :=
  {| key := Some "count"; value := PNum (of_Z 3); type := "number" |}.

(** A blank, a tab, a line feed and a no-break space. *)
Definition blank_text : string :=
  " " ++ str1 (chr 9) ++ nl ++ String (chr 194) (str1 (chr 160)).

End Scenario.

(** ** The contract

    The notions the properties below are stated with: the text of a
    path, the object a sequence of rows stands for, the patch of a
    document, and what it means for an edit session to be idle. *)

Module Contract.
Import JS NodeModal.

(** *** Paths *)

(** A segment between square brackets: a string segment in double
    quotes, a number segment as the number is written. *)
Definition bracketed (seg : Segment) : string :=
  match seg with
  | Key s => "[" ++ dq ++ s ++ dq ++ "]"
  | Index n => "[" ++ Number_toString n ++ "]"
  end.

Fixpoint path_text (segs : list Segment) : string :=
  match segs with
  | [] => ""
  | seg :: rest => bracketed seg ++ path_text rest
  end.

(** *** The parser of JSON *)

(** Each of the four parsers stops before the end of its input, and
    gives the same answer with every fuel that is at least the number of
    characters it read. *)
Definition value_fuel (f : nat) : Prop :=
  forall s v r,
    parse_value f s = Some (v, r) ->
    (String.length r < String.length s)%nat
    /\ forall g, (String.length s - String.length r <= g)%nat -> parse_value g s = Some (v, r).

Definition elements_fuel (f : nat) : Prop :=
  forall s acc l r,
    parse_elements f s acc = Some (l, r) ->
    (String.length r < String.length s)%nat
    /\ forall g, (String.length s - String.length r <= g)%nat -> parse_elements g s acc = Some (l, r).

Definition member_fuel (f : nat) : Prop :=
  forall s k v r,
    parse_member f s = Some (k, v, r) ->
    (String.length r < String.length s)%nat
    /\ forall g, (String.length s - String.length r <= g)%nat -> parse_member g s = Some (k, v, r).

Definition members_fuel (f : nat) : Prop :=
  forall s acc ps r,
    parse_members f s acc = Some (ps, r) ->
    (String.length r < String.length s)%nat
    /\ forall g, (String.length s - String.length r <= g)%nat -> parse_members g s acc = Some (ps, r).

(** *** Rows *)

(** The rows that have a key and are not containers, and the object
    that maps the key of each such row to its value. *)
Definition has_key (row : NodeRow) : bool :=
  match key row with
  | Some _ => true
  | None => false
  end.

Definition container (row : NodeRow) : bool :=
  (type row =? "array")%string || (type row =? "object")%string.

Definition kept (row : NodeRow) : bool := has_key row && negb (container row).

Definition add_member (m : list (string * Primitive)) (row : NodeRow) :=
  match key row with
  | Some k => define_own k (value row) m
  | None => m
  end.

Definition mapping (rows : list NodeRow) : object :=
  {| proto_null := false; own_props := fold_left add_member (filter kept rows) [] |}.

(** The normalizer in the words of its contract. *)
Definition normalize_contract (rows : list NodeRow) : string :=
  match rows with
  | [] => "{}"
  | [row] =>
      if has_key row then JSON_stringify (mapping rows) 2 else ToString (value row)
  | _ => JSON_stringify (mapping rows) 2
  end.

(** A key the assignment [obj[key] = value] turns into an own property
    of [obj]: not empty, and not [__proto__]. *)
Definition plain_key (row : NodeRow) : Prop :=
  key row <> Some "" /\ key row <> Some "__proto__".

(** The value the rows give to the key [k]: that of the last row with
    this key that is not a container. *)
Definition member_of_rows (k : string) (rows : list NodeRow) : option Primitive :=
  fold_left
    (fun found row =>
       match key row with
       | Some k' => if (k =? k')%string && negb (container row) then Some (value row) else found
       | None => found
       end)
    rows None.

Section Hosted.
Context {Store : Type} `{Host Store}.

(** *** Saving *)

(** The value [saveEdit] writes for the edited text. *)
Definition edited_value (text : string) (nd : NodeData) : JSValue :=
  match JSON_parse text with
  | inr v => v
  | inl _ => coerce text (firstRow nd)
  end.

(** Computing the patch and applying it: the new text of the document,
    or what [modify] or [applyEdits] threw; and the calls this makes. *)
Definition patch (original : string) (p : JSONPath) (v : JSValue) : result string :=
  match modify original p v modify_options with
  | inl e => inl e
  | inr edits => applyEdits original edits
  end.

Definition patch_calls (original : string) (p : JSONPath) (v : JSValue) : list Call :=
  Call_modify original p v modify_options
  :: match modify original p v modify_options with
     | inl _ => []
     | inr edits => [Call_applyEdits original edits]
     end.

Definition close_calls (p : Props) : list Call :=
  match onClose p with
  | Some _ => [Call_onClose]
  | None => []
  end.

(** What [onClose?.()] gives back: the throw of the handler, if it
    throws. *)
Definition close_result (p : Props) : result unit :=
  match onClose p with
  | Some (Throws e) => inl e
  | _ => inr tt
  end.

(** What [saveEdit] gives back: nothing is called without a selection;
    with one, a throw of [getJson] or of the handler is the only
    throw. *)
Definition save_result (r : Render) (w : @World Store) : result unit :=
  match selection (nodeData r) with
  | None => inr tt
  | Some _ =>
      match getJson (store w) with
      | inl e => inl e
      | inr _ => close_result (props r)
      end
  end.


Definition updates_store (c : Call) : bool :=
  match c with
  | Call_setJson _ | Call_setContents _ => true
  | _ => false
  end.

(** *** Sessions *)

(** An instance whose last commit ran with the dependencies of its
    current inputs; [nodeData?.id] of the selected node; an instance
    with another draft in the text area. *)
Definition mounted (i : @Instance Store) : Prop :=
  last_deps i = Some (deps_of (current i) (selectedNode i)).

Definition selected_id (i : @Instance Store) : option string :=
  option_map id (selectedNode i).


Definition idle_session (w : @World Store) : Prop :=
  editing w = false /\ editedValue w = "".


End Hosted.

End Contract.

(** ** The view and the traces

    The view the component returns, what each event may call, and the
    notions the properties of whole sessions are stated with. *)

Module Observations.
Import JS NodeModal Contract.

(** *** The view, lines 124-195

    The content panel is the text area on the draft while editing and
    the highlighted, read-only normalized rows otherwise; the Edit
    button is shown when not editing, Cancel and Save when editing; the
    path panel shows [jsonPathToString(nodeData?.path)]. *)
Inductive Content : Type :=
| CodeHighlight (code : string)
| Textarea (value : string).

Record View : Type := {
  modal_opened : bool;
  content : Content;
  edit_button : bool;
  cancel_button : bool;
  save_button : bool;
  json_path : string
}.

Definition view (r : Render) : View :=
  {| modal_opened := opened (props r);
     content := if seen_editing r then Textarea (seen_editedValue r)
                else CodeHighlight (initialContent r);
     edit_button := negb (seen_editing r);
     cancel_button := seen_editing r;
     save_button := seen_editing r;
     json_path := jsonPathToString
                    match nodeData r with
                    | Some nd => path nd
                    | None => None
                    end |}.

(** *** Traces *)

Definition is_select (e : Event) : bool :=
  match e with Select _ => true | _ => false end.

Definition is_save (e : Event) : bool :=
  match e with
  | ClickSave => true
  | _ => false
  end.

Definition is_close (e : Event) : bool :=
  match e with
  | ClickClose => true
  | _ => false
  end.

Definition is_setJson (c : Call) : bool :=
  match c with
  | Call_setJson _ => true
  | _ => false
  end.

Definition count {A : Type} (f : A -> bool) (l : list A) : nat :=
  List.length (filter f l).

(** The mirrored editor and the canonical store are updated together:
    every [setContents] in the trace has both flags set and is followed
    at once by [setJson] with the same text. *)
Fixpoint paired (cs : list Call) : Prop :=
  match cs with
  | [] => True
  | Call_setContents u :: rest =>
      hasChanges u = true /\ skipUpdate u = true
      /\ match rest with
         | Call_setJson j :: _ => j = contents u
         | _ => False
         end
      /\ paired rest
  | _ :: rest => paired rest
  end.

(** The object [normalizeNodeData] fills before it prints it, and the
    rows that set its prototype to [null]. *)
Definition assigned (rows : list NodeRow) : object :=
  fold_left assign_row rows empty_object.

Definition nulls_proto (row : NodeRow) : bool :=
  negb (container row)
  && match key row, value row with
     | Some k, PNull => (k =? "__proto__")%string
     | _, _ => false
     end.

(** What one row does to the object. *)
Inductive row_effect (o : object) (row : NodeRow) : object -> Prop :=
| row_skipped :
    container row = true \/ falsy_key (key row) = true ->
    row_effect o row o
| row_defined (k : string) :
    container row = false -> key row = Some k -> k <> "" ->
    (k = "__proto__" -> proto_null o = true) ->
    row_effect o row
      {| proto_null := proto_null o; own_props := define_own k (value row) (own_props o) |}
| row_proto :
    container row = false -> key row = Some "__proto__" -> proto_null o = false ->
    has_own "__proto__" (own_props o) = false ->
    row_effect o row
      {| proto_null := nulls_proto row; own_props := own_props o |}.

(** The invariant of the objects the rows build: the keys are distinct,
    none is empty, and [__proto__] is an own key only once the prototype
    is [null]. *)
Definition well_keyed (o : object) : Prop :=
  NoDup (map fst (own_props o))
  /\ get_own "" (own_props o) = None
  /\ (has_own "__proto__" (own_props o) = true -> proto_null o = true).

(** The order in which an object lists its keys: those that are array
    indices first, by ascending index, then the others. *)
Definition is_index (k : string) : bool :=
  match array_index k with
  | Some _ => true
  | None => false
  end.

Fixpoint indices_first (prev : Z) (ks : list string) : bool :=
  match ks with
  | [] => true
  | k :: rest =>
      match array_index k with
      | Some i => (prev <=? i) && indices_first i rest
      | None => forallb (fun k' => negb (is_index k')) rest
      end
  end.

(** A primitive as a value of a parsed document, as [JSON.stringify]
    writes it: a number that is not finite becomes [null]. *)
Definition json_of (v : Primitive) : JSValue :=
  match v with
  | PNull => VNull
  | PBool b => VBool b
  | PNum n => if Number_isFinite n then VNum n else VNull
  | PStr s => VStr s
  end.

(** A value that is not a finite number. *)
Definition wordy (v : Primitive) : bool :=
  match v with
  | PNum n => negb (Number_isFinite n)
  | _ => true
  end.

(** The text of an object printed with the gap of two blanks, after
    its first member: the other members, each after a comma and a line
    break, and the closing brace on a line of its own. *)
Definition member_text (kv : string * Primitive) : string :=
  QuoteJSONString (fst kv) ++ ": " ++ SerializeJSONProperty (snd kv).

Fixpoint members_text (ms : list (string * Primitive)) : string :=
  match ms with
  | [] => nl ++ "}"
  | kv :: rest => "," ++ nl ++ "  " ++ member_text kv ++ members_text rest
  end.

Definition parsed_members (ms : list (string * Primitive))
    (acc : list (string * JSValue)) : list (string * JSValue) :=
  fold_left (fun acc kv => define_own (fst kv) (json_of (snd kv)) acc) ms acc.

(** A path of property names none of which holds a double quote. *)
Fixpoint has_dq (s : string) : bool :=
  match s with
  | EmptyString => false
  | String c r => (c =? chr 34)%char || has_dq r
  end.

Definition unquoted_keys (p : JSONPath) : bool :=
  forallb (fun seg => match seg with Key s => negb (has_dq s) | Index _ => false end) p.

(** [nodeRows.length === 1 && !nodeRows[0].key]: the rows of a scalar. *)
Definition scalar_node (rows : list NodeRow) : bool :=
  match rows with
  | [row] => falsy_key (key row)
  | _ => false
  end.

(** The value Save writes for a node whose text was not changed in the
    text area. *)
Definition resaved (nd : NodeData) : JSValue :=
  edited_value (normalizeNodeData (Some (rows_of (Some nd)))) nd.

Section Hosted.
Context {Store : Type} `{Host Store}.

(** The calls one run of [saveEdit] makes, by what the collaborators
    answer. *)
Definition save_calls (r : Render) (w : @World Store) : list Call :=
  match selection (nodeData r) with
  | None => []
  | Some (nd, p) =>
      Call_getJson
      :: match getJson (store w) with
         | inl _ => []
         | inr original =>
             let v := edited_value (seen_editedValue r) nd in
             patch_calls original p v
             ++ match patch original p v with
                | inl e => [Call_console_error "Failed to apply node edit:" e]
                | inr newJson =>
                    let u := {| contents := newJson; hasChanges := true;
                                skipUpdate := true |} in
                    Call_setContents u
                    :: Call_setJson newJson
                    :: match fst (setJson newJson (snd (setContents u (store w)))) with
                       | inl e => [Call_console_error "Failed to apply node edit:" e]
                       | inr _ => []
                       end
                end
             ++ close_calls (props r)
         end
  end.

(** The instance with the two state cells set. *)
Definition in_session (b : bool) (d : string) (i : @Instance Store) : Instance :=
  {| world := {| store := store (world i); editing := b; editedValue := d;
                 calls := calls (world i) |};
     current := current i; selectedNode := selectedNode i; last_deps := last_deps i |}.

(** The calls an event makes on an instance. *)
Definition event_calls (i : @Instance Store) (e : Event) : list Call :=
  match e with
  | ClickSave => if editing (world i) then save_calls (render i) (world i) else []
  | ClickClose => close_calls (current i)
  | _ => []
  end.

End Hosted.

End Observations.

(** ** More runs

    The modal mounted on the node [b] with no edit running, the same
    node selected again at another path, a node that holds a string,
    and a node that stands for an object with a string and an array,
    with the modal mounted on it. *)

Module Cases.
Import JS NodeModal Scenario.

Definition idle_b : @Instance Stores :=
  mount {| json := doc1; file := None |} open_props (Some node_b).

Definition node_b_moved : NodeData :=
  {| id := "2";
     text := Some [ {| key := None; value := PNum (of_Z 1); type := "number" |} ];
     path := Some [Key "c"; Key "b"] |}.

Definition node_name : NodeData :=
  {| id := "3";
     text := Some [ {| key := None; value := PStr "Ann"; type := "string" |} ];
     path := Some [Key "name"] |}.

Definition idle_name : @Instance Stores :=
  mount {| json := doc1; file := None |} open_props (Some node_name).

Definition node_card : NodeData :=
  {| id := "8"; text := Some [row_a; row_items]; path := Some [Key "card"] |}.

Definition idle_card : @Instance Stores :=
  mount {| json := doc1; file := None |} open_props (Some node_card).

End Cases.

(** ** Properties *)

Import JS NodeModal Contract.

(** *** The path formatter *)

Lemma append_assoc (a b c : string) : (a ++ b) ++ c = a ++ (b ++ c).
Proof.
  induction a as [| ch a IH]; simpl; [reflexivity | now rewrite IH].
Qed.

Lemma append_empty_r (a : string) : a ++ "" = a.
Proof.
  induction a as [| ch a IH]; simpl; [reflexivity | now rewrite IH].
Qed.

Lemma bracketed_segment_text (seg : Segment) :
  bracketed seg = "[" ++ segment_text seg ++ "]".
Proof.
  destruct seg as [s | n]; simpl; [| reflexivity].
  now rewrite !append_assoc.
Qed.

(** Joining on the separator of a closing and an opening bracket, then
    closing the last bracket, is the same as closing each segment. *)
Lemma join_brackets (seg : Segment) (rest : list Segment) :
  "[" ++ join "][" (map segment_text (seg :: rest)) ++ "]" = path_text (seg :: rest).
Proof.
  revert seg; induction rest as [| seg' rest IH]; intros seg.
  - cbn [map join path_text]. now rewrite bracketed_segment_text, append_empty_r.
  - change (map segment_text (seg :: seg' :: rest))
      with (segment_text seg :: map segment_text (seg' :: rest)).
    change (join "][" (segment_text seg :: map segment_text (seg' :: rest)))
      with (segment_text seg ++ "][" ++ join "][" (map segment_text (seg' :: rest))).
    change (path_text (seg :: seg' :: rest))
      with (bracketed seg ++ path_text (seg' :: rest)).
    rewrite <- IH, bracketed_segment_text, !append_assoc. reflexivity.
Qed.

(** C7.  [jsonPathToString] gives [$] for an absent or empty path and
    otherwise [$] followed by the segments in order, each between square
    brackets and nothing else between them, a string segment in double
    quotes and a number segment bare; the path [a], 2, [b] is written
    [$], bracket, quoted a, bracket, [2] and bracket, quoted b, bracket. *)
Theorem jsonPathToString_brackets :
  jsonPathToString None = "$"
  /\ jsonPathToString (Some []) = "$"
  /\ (forall segs, jsonPathToString (Some segs) = "$" ++ path_text segs)
  /\ (forall s, bracketed (Key s) = "[" ++ dq ++ s ++ dq ++ "]")
  /\ (forall n, bracketed (Index n) = "[" ++ Number_toString n ++ "]")
  /\ jsonPathToString (Some [Key "a"; Index (of_Z 2); Key "b"])
     = "$[" ++ dq ++ "a" ++ dq ++ "][2][" ++ dq ++ "b" ++ dq ++ "]".
Proof.
  split; [reflexivity |].
  split; [reflexivity |].
  split.
  { intros [| seg rest]; [reflexivity |].
    unfold jsonPathToString. now rewrite <- join_brackets. }
  split; [reflexivity |].
  split; [reflexivity |].
  vm_compute. reflexivity.
Qed.

(** *** The normalizer *)

Lemma is_empty_spec (s : string) : is_empty s = true <-> s = "".
Proof.
  destruct s; simpl; split; intros E; try reflexivity; discriminate.
Qed.

Lemma set_property_plain (k : string) (v : Primitive) (o : object) :
  k <> "__proto__" ->
  set_property k v o
  = {| proto_null := proto_null o; own_props := define_own k v (own_props o) |}.
Proof.
  intros Hk. unfold set_property, define_own.
  destruct (has_own k (own_props o)); [reflexivity |].
  destruct (String.eqb_spec k "__proto__") as [E | _]; [contradiction | reflexivity].
Qed.

Lemma assign_row_plain (o : object) (row : NodeRow) :
  plain_key row ->
  assign_row o row
  = if kept row
    then {| proto_null := proto_null o; own_props := add_member (own_props o) row |}
    else o.
Proof.
  intros [Hne Hnp]. unfold assign_row, kept, container, has_key, add_member.
  destruct (type row =? "array")%string; simpl;
    [now destruct (key row) |].
  destruct (type row =? "object")%string; simpl;
    [now destruct (key row) |].
  destruct (key row) as [k |]; [| reflexivity].
  destruct k as [| c k]; [now elim Hne |].
  cbn [falsy_key is_empty]. apply set_property_plain. congruence.
Qed.

Lemma fold_assign_plain (rows : list NodeRow) (o : object) :
  Forall plain_key rows ->
  fold_left assign_row rows o
  = {| proto_null := proto_null o;
       own_props := fold_left add_member (filter kept rows) (own_props o) |}.
Proof.
  intros Hall; revert o.
  induction Hall as [| row rows Hrow _ IH]; intros o.
  - now destruct o.
  - cbn [fold_left filter]. rewrite IH, (assign_row_plain o row Hrow).
    now destruct (kept row).
Qed.

(** On rows whose keys are plain the normalizer is its contract. *)
Lemma normalizeNodeData_plain (rows : list NodeRow) :
  Forall plain_key rows ->
  normalizeNodeData (Some rows) = normalize_contract rows.
Proof.
  intros Hall. destruct rows as [| row rest]; [reflexivity |].
  unfold normalizeNodeData, normalize_contract, mapping.
  rewrite (fold_assign_plain (row :: rest) empty_object Hall).
  destruct rest as [| row' rest]; [| reflexivity].
  cbn [List.length Nat.eqb andb].
  inversion Hall as [| ? ? [Hne _] _]; subst.
  unfold has_key.
  destruct (key row) as [[| c k] |]; [now elim Hne | reflexivity | reflexivity].
Qed.

(** C6 at the rows of the object with the members [""] and [a]: the
    normalizer leaves the member with the empty key out, where the
    contract keeps every row that has a key and is not a container; and
    the single row of the object whose only member has the empty key is
    written as the bare value. *)
Theorem normalizeNodeData_drops_empty_key :
  normalizeNodeData (Some [Scenario.row_empty_key; Scenario.row_a])
  = "{" ++ nl ++ "  " ++ Scenario.quoted "a" ++ ": " ++ Scenario.quoted "y" ++ nl ++ "}"
  /\ normalize_contract [Scenario.row_empty_key; Scenario.row_a]
     = "{" ++ nl ++ "  " ++ Scenario.quoted "" ++ ": " ++ Scenario.quoted "x" ++ ","
       ++ nl ++ "  " ++ Scenario.quoted "a" ++ ": " ++ Scenario.quoted "y" ++ nl ++ "}"
  /\ normalizeNodeData (Some [Scenario.row_empty_key]) = "x"
  /\ normalize_contract [Scenario.row_empty_key]
     = "{" ++ nl ++ "  " ++ Scenario.quoted "" ++ ": " ++ Scenario.quoted "x" ++ nl ++ "}".
Proof.
  repeat split; vm_compute; reflexivity.
Qed.

(** The same for a member named [__proto__]: the assignment reaches the
    accessor of [Object.prototype] and creates no property. *)
Lemma normalizeNodeData_drops_proto :
  normalizeNodeData (Some [Scenario.row_proto; Scenario.row_a])
  = "{" ++ nl ++ "  " ++ Scenario.quoted "a" ++ ": " ++ Scenario.quoted "y" ++ nl ++ "}"
  /\ normalize_contract [Scenario.row_proto; Scenario.row_a]
     = "{" ++ nl ++ "  " ++ Scenario.quoted "__proto__" ++ ": " ++ Scenario.quoted "z" ++ ","
       ++ nl ++ "  " ++ Scenario.quoted "a" ++ ": " ++ Scenario.quoted "y" ++ nl ++ "}".
Proof.
  split; vm_compute; reflexivity.
Qed.

(** *** The fuel of the JSON parser *)

Lemma after_char_length (n : Z) (s r : string) :
  after_char n s = Some r -> String.length s = S (String.length r).
Proof.
  destruct s as [| c s']; cbn; [discriminate |].
  destruct (code c =? n); [| discriminate]. now intros [= ->].
Qed.

Lemma skip_json_ws_length (s : string) : (String.length (skip_json_ws s) <= String.length s)%nat.
Proof.
  induction s as [| c s IH]; cbn; [lia |].
  destruct (json_ws c); cbn; lia.
Qed.

Lemma read_digits_length (s : string) (a c v n : Z) (r : string) :
  read_digits s a c = (v, n, r) ->
  c <= n /\ (String.length r <= String.length s)%nat /\ (c < n -> (String.length r < String.length s)%nat).
Proof.
  revert a c. induction s as [| ch s IH]; intros a c; cbn.
  - intros [= <- <- <-]. cbn. lia.
  - destruct (is_digit ch).
    + intros Hr. apply IH in Hr. lia.
    + intros [= <- <- <-]. cbn. lia.
Qed.

Lemma read_sign_length (s : string) (b : bool) (r : string) :
  read_sign s = (b, r) -> (String.length r <= String.length s)%nat.
Proof.
  unfold read_sign.
  destruct (after_char 43 s) as [r1 |] eqn:E1.
  { intros [= <- <-]. apply after_char_length in E1. lia. }
  destruct (after_char 45 s) as [r1 |] eqn:E2.
  { intros [= <- <-]. apply after_char_length in E2. lia. }
  intros [= <- <-]. lia.
Qed.

Lemma read_exponent_length (s : string) (e : Z) (r : string) :
  read_exponent s = (e, r) -> (String.length r <= String.length s)%nat.
Proof.
  unfold read_exponent. destruct s as [| c s']; [intros [= <- <-]; lia |].
  destruct ((code c =? 101) || (code c =? 69)); [| intros [= <- <-]; lia].
  destruct (read_sign s') as [neg r1] eqn:Es.
  destruct (read_digits r1 0 0) as [[v n] r2] eqn:Ed.
  apply read_sign_length in Es. apply read_digits_length in Ed.
  destruct (n =? 0); intros [= <- <-]; cbn [String.length]; lia.
Qed.

Lemma read_json_number_length (s : string) (n : number) (r : string) :
  read_json_number s = Some (n, r) -> (String.length r < String.length s)%nat.
Proof.
  unfold read_json_number.
  assert (Hsign : forall neg s1,
             match after_char 45 s with
             | Some r0 => (true, r0)
             | None => (false, s)
             end = (neg, s1) -> (String.length s1 <= String.length s)%nat).
  { intros neg s1. destruct (after_char 45 s) as [r0 |] eqn:E; intros [= <- <-];
      [apply after_char_length in E |]; lia. }
  destruct (match after_char 45 s with
            | Some r0 => (true, r0)
            | None => (false, s)
            end) as [neg s1] eqn:E1.
  specialize (Hsign neg s1 eq_refl).
  assert (Hint : forall vi ni r1,
             match after_char 48 s1 with
             | Some r0 => (0, 1, r0)
             | None => read_digits s1 0 0
             end = (vi, ni, r1) -> ni <> 0 -> (String.length r1 < String.length s1)%nat).
  { intros vi ni r1. destruct (after_char 48 s1) as [r0 |] eqn:E.
    - intros [= <- <- <-] _. apply after_char_length in E. lia.
    - intros Hd Hn. apply read_digits_length in Hd. lia. }
  destruct (match after_char 48 s1 with
            | Some r0 => (0, 1, r0)
            | None => read_digits s1 0 0
            end) as [[vi ni] r1] eqn:E2.
  specialize (Hint vi ni r1 eq_refl).
  destruct (Z.eqb_spec ni 0) as [| Hni]; [discriminate |].
  specialize (Hint Hni).
  destruct (after_char 46 r1) as [r2 |] eqn:E3.
  - apply after_char_length in E3.
    destruct (read_digits r2 vi 0) as [[vf nf] r3] eqn:E4.
    apply read_digits_length in E4.
    destruct (nf =? 0); [discriminate |].
    destruct (read_exponent r3) as [e r4] eqn:E5.
    apply read_exponent_length in E5. intros [= <- <-]. lia.
  - destruct (read_exponent r1) as [e r4] eqn:E5.
    apply read_exponent_length in E5. intros [= <- <-]. lia.
Qed.

Lemma read_hex4_length (s : string) (v : Z) (r : string) :
  read_hex4 s = Some (v, r) -> String.length s = (4 + String.length r)%nat.
Proof.
  unfold read_hex4.
  destruct s as [| a [| b [| c [| d s']]]]; try discriminate.
  destruct (radix_digit 16 a), (radix_digit 16 b), (radix_digit 16 c),
    (radix_digit 16 d); try discriminate.
  now intros [= <- <-].
Qed.

Lemma read_unicode_length (hi : Z) (s : string) (cp : Z) (r : string) :
  read_unicode hi s = (cp, r) -> (String.length r <= String.length s)%nat.
Proof.
  unfold read_unicode.
  destruct ((55296 <=? hi) && (hi <=? 56319)); [| intros [= <- <-]; lia].
  destruct (after_char 92 s) as [r1 |] eqn:E1; [| intros [= <- <-]; lia].
  destruct (after_char 117 r1) as [r2 |] eqn:E2; [| intros [= <- <-]; lia].
  destruct (read_hex4 r2) as [[lo r'] |] eqn:E3; [| intros [= <- <-]; lia].
  apply after_char_length in E1, E2. apply read_hex4_length in E3.
  destruct ((56320 <=? lo) && (lo <=? 57343)); intros [= <- <-]; lia.
Qed.

(** A string literal ends before the end of the input, and the fuel of
    its reader is enough once it is the length of the input. *)
Lemma read_string_fuel (f : nat) (s acc str r : string) :
  read_string f s acc = Some (str, r) ->
  (String.length r < String.length s)%nat
  /\ forall g, (String.length s <= g)%nat -> read_string g s acc = Some (str, r).
Proof.
  revert s acc. induction f as [| f IH]; intros s acc; [discriminate |].
  cbn [read_string]. destruct s as [| c s']; [discriminate |].
  destruct (code c =? 34) eqn:Eq.
  { intros [= <- <-]. split; [cbn; lia |].
    intros [| g] Hg; [cbn in Hg; lia |]. cbn [read_string]. now rewrite Eq. }
  destruct (code c <? 32) eqn:Ec; [discriminate |].
  destruct (code c =? 92) eqn:Eb.
  - destruct s' as [| e r']; [discriminate |].
    destruct (escape_char (code e)) as [b |] eqn:Ee.
    + intros Hr. apply IH in Hr. destruct Hr as [Hl Hg]. split; [cbn [String.length] in *; lia |].
      intros [| g] Hlen; [cbn [String.length] in Hlen; lia |]. cbn [read_string].
      rewrite Eq, Ec, Eb, Ee. apply Hg. cbn [String.length] in Hlen. lia.
    + destruct (code e =? 117) eqn:Eu; [| discriminate].
      destruct (read_hex4 r') as [[hi r''] |] eqn:Eh; [| discriminate].
      destruct (read_unicode hi r'') as [cp r3] eqn:Eun.
      intros Hr. apply IH in Hr. destruct Hr as [Hl Hg].
      pose proof (read_hex4_length _ _ _ Eh) as Hh.
      pose proof (read_unicode_length _ _ _ _ Eun) as Hu.
      split; [cbn [String.length] in *; lia |].
      intros [| g] Hlen; [cbn [String.length] in Hlen; lia |]. cbn [read_string].
      rewrite Eq, Ec, Eb, Ee, Eu, Eh, Eun. apply Hg. cbn [String.length] in Hlen. lia.
  - intros Hr. apply IH in Hr. destruct Hr as [Hl Hg]. split; [cbn [String.length] in *; lia |].
    intros [| g] Hlen; [cbn [String.length] in Hlen; lia |]. cbn [read_string].
    rewrite Eq, Ec, Eb. apply Hg. cbn [String.length] in Hlen. lia.
Qed.

Lemma prefix_drop_length (p s : string) :
  prefix p s = true -> (String.length (drop (String.length p) s) + String.length p = String.length s)%nat.
Proof.
  revert s. induction p as [| c p IH]; intros s.
  - destruct s; cbn; lia.
  - destruct s as [| c' s']; cbn; [discriminate |].
    destruct (Ascii.ascii_dec c c'); [| discriminate].
    intros Hp. apply IH in Hp. lia.
Qed.

Lemma parse_value_step (f : nat) :
  value_fuel f -> elements_fuel f -> member_fuel f -> members_fuel f ->
  value_fuel (S f).
Proof.
  intros HV HE HM HMs s v r. cbn [parse_value].
  destruct s as [| c s']; [discriminate |].
  destruct (code c =? 110) eqn:E1.
  { destruct (prefix "null" (String c s')) eqn:Ep; [| discriminate].
    intros [= <- <-]. pose proof (prefix_drop_length _ _ Ep) as Hl.
    change (String.length "null") with 4%nat in Hl. cbn [drop] in Hl |- *. split; [lia |].
    intros [| g] Hg; [lia |]. cbn [parse_value]. now rewrite E1, Ep. }
  destruct (code c =? 116) eqn:E2.
  { destruct (prefix "true" (String c s')) eqn:Ep; [| discriminate].
    intros [= <- <-]. pose proof (prefix_drop_length _ _ Ep) as Hl.
    change (String.length "true") with 4%nat in Hl. cbn [drop] in Hl |- *. split; [lia |].
    intros [| g] Hg; [lia |]. cbn [parse_value]. now rewrite E1, E2, Ep. }
  destruct (code c =? 102) eqn:E3.
  { destruct (prefix "false" (String c s')) eqn:Ep; [| discriminate].
    intros [= <- <-]. pose proof (prefix_drop_length _ _ Ep) as Hl.
    change (String.length "false") with 5%nat in Hl. cbn [drop] in Hl |- *. split; [lia |].
    intros [| g] Hg; [lia |]. cbn [parse_value]. now rewrite E1, E2, E3, Ep. }
  destruct (code c =? 34) eqn:E4.
  { destruct (read_string (S (String.length s')) s' "") as [[str r'] |] eqn:Es; [| discriminate].
    intros [= <- <-]. pose proof (proj1 (read_string_fuel _ _ _ _ _ Es)) as Hl.
    split; [cbn [String.length]; lia |].
    intros [| g] Hg; [cbn [String.length] in Hg; lia |]. cbn [parse_value].
    now rewrite E1, E2, E3, E4, Es. }
  destruct (code c =? 91) eqn:E5.
  { pose proof (skip_json_ws_length s') as Hs.
    destruct (after_char 93 (skip_json_ws s')) as [r' |] eqn:Ea.
    { intros [= <- <-]. pose proof (after_char_length _ _ _ Ea) as Hl.
      split; [cbn [String.length]; lia |].
      intros [| g] Hg; [cbn [String.length] in Hg; lia |]. cbn [parse_value].
      now rewrite E1, E2, E3, E4, E5, Ea. }
    destruct (parse_value f (skip_json_ws s')) as [[v1 r1] |] eqn:Ev; [| discriminate].
    destruct (parse_elements f (skip_json_ws r1) [v1]) as [[l r2] |] eqn:Ee;
      [| discriminate].
    intros [= <- <-].
    destruct (HV _ _ _ Ev) as [Hl1 Hg1]. destruct (HE _ _ _ _ Ee) as [Hl2 Hg2].
    pose proof (skip_json_ws_length r1) as Hs1.
    split; [cbn [String.length]; lia |].
    intros [| g] Hg; [cbn [String.length] in Hg; lia |]. cbn [parse_value].
    cbn [String.length] in Hg.
    rewrite E1, E2, E3, E4, E5, Ea, (Hg1 g), (Hg2 g); [reflexivity | lia | lia]. }
  destruct (code c =? 123) eqn:E6.
  { pose proof (skip_json_ws_length s') as Hs.
    destruct (after_char 125 (skip_json_ws s')) as [r' |] eqn:Ea.
    { intros [= <- <-]. pose proof (after_char_length _ _ _ Ea) as Hl.
      split; [cbn [String.length]; lia |].
      intros [| g] Hg; [cbn [String.length] in Hg; lia |]. cbn [parse_value].
      now rewrite E1, E2, E3, E4, E5, E6, Ea. }
    destruct (parse_member f (skip_json_ws s')) as [[[k1 v1] r1] |] eqn:Ev;
      [| discriminate].
    destruct (parse_members f (skip_json_ws r1) (define_own k1 v1 []))
      as [[ps r2] |] eqn:Ee; [| discriminate].
    intros [= <- <-].
    destruct (HM _ _ _ _ Ev) as [Hl1 Hg1]. destruct (HMs _ _ _ _ Ee) as [Hl2 Hg2].
    pose proof (skip_json_ws_length r1) as Hs1.
    split; [cbn [String.length]; lia |].
    intros [| g] Hg; [cbn [String.length] in Hg; lia |]. cbn [parse_value].
    cbn [String.length] in Hg.
    rewrite E1, E2, E3, E4, E5, E6, Ea, (Hg1 g), (Hg2 g); [reflexivity | lia | lia]. }
  destruct (read_json_number (String c s')) as [[n r'] |] eqn:En; [| discriminate].
  intros [= <- <-]. pose proof (read_json_number_length _ _ _ En) as Hl.
  split; [exact Hl |].
  intros [| g] Hg; [lia |]. cbn [parse_value].
  now rewrite E1, E2, E3, E4, E5, E6, En.
Qed.

Lemma parse_elements_step (f : nat) :
  value_fuel f -> elements_fuel f -> elements_fuel (S f).
Proof.
  intros HV HE s acc l r. cbn [parse_elements].
  destruct (after_char 93 s) as [r' |] eqn:Ea.
  { intros [= <- <-]. pose proof (after_char_length _ _ _ Ea) as Hl.
    split; [lia |]. intros [| g] Hg; [lia |]. cbn [parse_elements]. now rewrite Ea. }
  destruct (after_char 44 s) as [r' |] eqn:Ec; [| discriminate].
  destruct (parse_value f (skip_json_ws r')) as [[v1 r1] |] eqn:Ev; [| discriminate].
  intros Ee.
  destruct (HV _ _ _ Ev) as [Hl1 Hg1]. destruct (HE _ _ _ _ Ee) as [Hl2 Hg2].
  pose proof (after_char_length _ _ _ Ec) as Hl.
  pose proof (skip_json_ws_length r') as Hs. pose proof (skip_json_ws_length r1) as Hs1.
  split; [lia |].
  intros [| g] Hg; [lia |]. cbn [parse_elements].
  rewrite Ea, Ec, (Hg1 g); [apply Hg2 |]; lia.
Qed.

Lemma parse_member_step (f : nat) :
  value_fuel f -> member_fuel (S f).
Proof.
  intros HV s k v r. cbn [parse_member].
  destruct (after_char 34 s) as [r0 |] eqn:Ea; [| discriminate].
  destruct (read_string (S (String.length r0)) r0 "") as [[k1 r1] |] eqn:Es; [| discriminate].
  destruct (after_char 58 (skip_json_ws r1)) as [r2 |] eqn:Ec; [| discriminate].
  destruct (parse_value f (skip_json_ws r2)) as [[v1 r3] |] eqn:Ev; [| discriminate].
  intros [= <- <- <-].
  destruct (HV _ _ _ Ev) as [Hl1 Hg1].
  pose proof (after_char_length _ _ _ Ea) as Hl.
  pose proof (after_char_length _ _ _ Ec) as Hl2.
  pose proof (proj1 (read_string_fuel _ _ _ _ _ Es)) as Hl3.
  pose proof (skip_json_ws_length r1) as Hs1. pose proof (skip_json_ws_length r2) as Hs2.
  split; [lia |].
  intros [| g] Hg; [lia |]. cbn [parse_member].
  rewrite Ea, Es, Ec, (Hg1 g); [reflexivity | lia].
Qed.

Lemma parse_members_step (f : nat) :
  member_fuel f -> members_fuel f -> members_fuel (S f).
Proof.
  intros HM HMs s acc ps r. cbn [parse_members].
  destruct (after_char 125 s) as [r' |] eqn:Ea.
  { intros [= <- <-]. pose proof (after_char_length _ _ _ Ea) as Hl.
    split; [lia |]. intros [| g] Hg; [lia |]. cbn [parse_members]. now rewrite Ea. }
  destruct (after_char 44 s) as [r' |] eqn:Ec; [| discriminate].
  destruct (parse_member f (skip_json_ws r')) as [[[k1 v1] r1] |] eqn:Ev;
    [| discriminate].
  intros Ee.
  destruct (HM _ _ _ _ Ev) as [Hl1 Hg1]. destruct (HMs _ _ _ _ Ee) as [Hl2 Hg2].
  pose proof (after_char_length _ _ _ Ec) as Hl.
  pose proof (skip_json_ws_length r') as Hs. pose proof (skip_json_ws_length r1) as Hs1.
  split; [lia |].
  intros [| g] Hg; [lia |]. cbn [parse_members].
  rewrite Ea, Ec, (Hg1 g); [apply Hg2 |]; lia.
Qed.

Lemma parsers_fuel (f : nat) :
  value_fuel f /\ elements_fuel f /\ member_fuel f /\ members_fuel f.
Proof.
  induction f as [| f (HV & HE & HM & HMs)].
  - split; [| split; [| split]]; intro; intros; discriminate.
  - split; [| split; [| split]].
    + now apply parse_value_step.
    + now apply parse_elements_step.
    + now apply parse_member_step.
    + now apply parse_members_step.
Qed.

(** The fuel of [JSON_parse] never runs out: what the parser reads with
    any fuel at all, it reads with the fuel [JSON_parse] gives it. *)
Lemma JSON_parse_fuel (text : string) (f : nat) (v : JSValue) (rest : string) :
  parse_value f (skip_json_ws text) = Some (v, rest) ->
  JSON_parse text
  = if is_empty (skip_json_ws rest) then inr v
    else inl (Error "SyntaxError" "Unexpected non-whitespace character after JSON").
Proof.
  intros Hp. destruct (parsers_fuel f) as [HV _].
  destruct (HV _ _ _ Hp) as [_ Hg]. unfold JSON_parse.
  rewrite (Hg (S (3 * String.length text))); [reflexivity |].
  pose proof (skip_json_ws_length text). lia.
Qed.

(** *** The value parser *)

Lemma chr_code (c : ascii) : chr (code c) = c.
Proof.
  unfold chr, code. rewrite N2Z.id. apply ascii_N_embedding.
Qed.

Lemma code_is (c : ascii) (n : Z) : code c = n -> c = chr n.
Proof.
  intros <-. symmetry. apply chr_code.
Qed.

Lemma skip_StrWhiteSpace_cons (c1 : ascii) (r1 : string) :
  skip_StrWhiteSpace (String c1 r1)
  = if ws1 c1 then skip_StrWhiteSpace r1
    else
      match r1 with
      | EmptyString => String c1 r1
      | String c2 r2 =>
          if ws2 c1 c2 then skip_StrWhiteSpace r2
          else
            match r2 with
            | EmptyString => String c1 r1
            | String c3 r3 =>
                if ws3 c1 c2 c3 then skip_StrWhiteSpace r3 else String c1 r1
            end
      end.
Proof.
  reflexivity.
Qed.

Lemma json_ws_is_ws1 (c : ascii) : json_ws c = true -> ws1 c = true.
Proof.
  unfold json_ws, ws1. cbv zeta. intros J.
  repeat (apply orb_prop in J; destruct J as [J | J]);
    apply Z.eqb_eq in J; rewrite J; reflexivity.
Qed.

(** White space stays white space when the JSON white space at its head
    is dropped. *)
Lemma skip_json_ws_of_whitespace (s : string) :
  skip_StrWhiteSpace s = "" -> skip_StrWhiteSpace (skip_json_ws s) = "".
Proof.
  induction s as [| c r IH]; intros Hs; [exact Hs |].
  cbn [skip_json_ws]. destruct (json_ws c) eqn:J; [| exact Hs].
  apply IH. rewrite skip_StrWhiteSpace_cons, (json_ws_is_ws1 c J) in Hs. exact Hs.
Qed.

(** The first byte of white space. *)
Lemma whitespace_head (c : ascii) (r : string) :
  skip_StrWhiteSpace (String c r) = "" ->
  ((9 <= code c <= 13) \/ code c = 32)
  \/ code c = 194 \/ code c = 225 \/ code c = 226 \/ code c = 227 \/ code c = 239.
Proof.
  rewrite skip_StrWhiteSpace_cons.
  destruct (ws1 c) eqn:W1.
  { intros _. left. unfold ws1 in W1. cbv zeta in W1. lia. }
  destruct r as [| c2 r2]; [discriminate |].
  destruct (ws2 c c2) eqn:W2.
  { intros _. unfold ws2 in W2. lia. }
  destruct r2 as [| c3 r3]; [discriminate |].
  destruct (ws3 c c2 c3) eqn:W3; [| discriminate].
  intros _. unfold ws3 in W3. cbv zeta in W3. lia.
Qed.

(** No JSON value starts with a byte of white space. *)
Lemma parse_value_whitespace (f : nat) (s : string) :
  skip_StrWhiteSpace s = "" -> parse_value (S f) s = None.
Proof.
  destruct s as [| c r]; [reflexivity |].
  intros Hs. apply whitespace_head in Hs.
  assert (Hc : In (code c) [9; 10; 11; 12; 13; 32; 194; 225; 226; 227; 239]).
  { cbn [In]. lia. }
  cbn [In] in Hc.
  repeat (destruct Hc as [Hc | Hc];
          [symmetry in Hc; apply code_is in Hc; subst c; reflexivity |]).
  contradiction.
Qed.

(** Text that is white space and nothing else is not JSON. *)
Lemma JSON_parse_whitespace (text : string) :
  whitespace_only text = true -> exists e, JSON_parse text = inl e.
Proof.
  intros Hw. apply is_empty_spec in Hw. unfold JSON_parse.
  rewrite (parse_value_whitespace _ _ (skip_json_ws_of_whitespace text Hw)).
  eexists; reflexivity.
Qed.

Lemma StringToNumber_whitespace (text : string) :
  whitespace_only text = true -> StringToNumber text = pos_zero.
Proof.
  unfold StringToNumber, whitespace_only. cbv zeta. now intros ->.
Qed.

Section ValueParser.
Context {Store : Type}.

Lemma parseEdit_value (text : string) (nd : NodeData) (w : @World Store) :
  parseEdit text nd w
  = (inr match JSON_parse text with
         | inr v => v
         | inl _ => coerce text (firstRow nd)
         end, w).
Proof.
  unfold parseEdit, try_catch, lift, ret. now destruct (JSON_parse text).
Qed.


(** C3.  When the edited text is JSON, [parseEdit] returns the parsed
    value, whatever the node and the declared type of its rows. *)
Theorem parseEdit_json (text : string) (nd : NodeData) (w : @World Store) (v : JSValue) :
  JSON_parse text = inr v ->
  parseEdit text nd w = (inr v, w)
  /\ forall nd', parseEdit text nd' w = parseEdit text nd w.
Proof.
  intros Hv. split; [| intros nd']; rewrite !parseEdit_value, Hv; reflexivity.
Qed.

(** C10.  The empty string and every string of white space only are not
    JSON, convert to the number 0, and with a first row of declared type
    [number] make [parseEdit] return the number 0, not the text. *)
Theorem parseEdit_whitespace_number (text : string) (nd : NodeData)
    (row : NodeRow) (w : @World Store) :
  text = "" \/ whitespace_only text = true ->
  firstRow nd = Some row ->
  type row = "number" ->
  (exists e, JSON_parse text = inl e)
  /\ StringToNumber text = pos_zero
  /\ Number_isFinite pos_zero = true
  /\ parseEdit text nd w = (inr (VNum pos_zero), w).
Proof.
  intros Hw Hrow Hty.
  assert (Hws : whitespace_only text = true).
  { destruct Hw as [-> | Hw]; [reflexivity | exact Hw]. }
  destruct (JSON_parse_whitespace text Hws) as [e He].
  split; [now exists e |].
  split; [now apply StringToNumber_whitespace |].
  split; [reflexivity |].
  rewrite parseEdit_value, He, Hrow. unfold coerce. rewrite Hty.
  cbn [String.eqb Ascii.eqb Bool.eqb].
  now rewrite (StringToNumber_whitespace text Hws).
Qed.

End ValueParser.

(** *** Saving *)

Section Saving.
Context {Store : Type} `{Host Store}.

Ltac run_save :=
  unfold saveEdit, cancelEdit, bind, try_catch, ret, lift, call_getJson, call_modify,
    call_applyEdits, call_setContents, call_setJson, console_error, call_onClose,
    setEditing, setEditedValue, log, with_store;
  cbn [store editing editedValue calls fst snd].

Lemma selection_none (r : Render) :
  nodeData r = None \/ (exists nd, nodeData r = Some nd /\ path nd = None) ->
  selection (nodeData r) = None.
Proof.
  intros [-> | [nd [-> Hp]]]; cbn; [reflexivity | now rewrite Hp].
Qed.

(** C5.  Saving with no selected node, or with a node that has no path,
    does what cancelling does and nothing else: the draft is emptied
    and editing ends, while the stores stay as they are and no call is
    made, so the document is neither read nor written and no patch is
    computed. *)
Theorem saveEdit_without_selection (r : Render) (w : World) :
  nodeData r = None \/ (exists nd, nodeData r = Some nd /\ path nd = None) ->
  saveEdit r w
  = (inr tt, {| store := store w; editing := false; editedValue := "";
                calls := calls w |})
  /\ saveEdit r w = cancelEdit w.
Proof.
  intros Hsel. unfold saveEdit. rewrite (selection_none r Hsel).
  split; reflexivity.
Qed.

Lemma selection_some (r : Render) (nd : NodeData) (p : JSONPath) :
  nodeData r = Some nd -> path nd = Some p -> selection (nodeData r) = Some (nd, p).
Proof.
  intros -> Hp. cbn. now rewrite Hp.
Qed.

(** [saveEdit] on a selected node, by what the collaborators answer:
    what it gives back, the world it leaves and the calls it makes. *)
Lemma saveEdit_unreadable (r : Render) (w : World) (nd : NodeData) (p : JSONPath)
    (e : error) :
  selection (nodeData r) = Some (nd, p) ->
  getJson (store w) = inl e ->
  saveEdit r w = (inl e, log Call_getJson w).
Proof.
  intros Hsel Hget. unfold saveEdit. rewrite Hsel.
  unfold bind at 1. unfold call_getJson. now rewrite Hget.
Qed.

Lemma saveEdit_readable (r : Render) (w : World) (nd : NodeData) (p : JSONPath)
    (original : string) :
  selection (nodeData r) = Some (nd, p) ->
  getJson (store w) = inr original ->
  let v := edited_value (seen_editedValue r) nd in
  let u newJson := {| contents := newJson; hasChanges := true; skipUpdate := true |} in
  saveEdit r w
  = (close_result (props r),
     {| store := match patch original p v with
                 | inl _ => store w
                 | inr newJson => snd (setJson newJson (snd (setContents (u newJson) (store w))))
                 end;
        editing := false;
        editedValue := editedValue w;
        calls := calls w
                 ++ Call_getJson
                 :: patch_calls original p v
                 ++ match patch original p v with
                    | inl e => [Call_console_error "Failed to apply node edit:" e]
                    | inr newJson =>
                        Call_setContents (u newJson)
                        :: Call_setJson newJson
                        :: match fst (setJson newJson
                                        (snd (setContents (u newJson) (store w)))) with
                           | inl e => [Call_console_error "Failed to apply node edit:" e]
                           | inr _ => []
                           end
                    end
                 ++ close_calls (props r) |}).
Proof.
  intros Hsel Hget v u. subst v u. unfold saveEdit. rewrite Hsel.
  unfold patch, patch_calls, close_calls, close_result.
  run_save. rewrite Hget. rewrite parseEdit_value.
  fold (edited_value (seen_editedValue r) nd).
  cbn [store editing editedValue calls fst snd].
  destruct (modify original p (edited_value (seen_editedValue r) nd) modify_options)
    as [e | edits];
    [| cbn [store]; destruct (applyEdits original edits) as [e | newJson];
       [| cbn [store]; destruct (setContents _ (store w)) as [[e1 | []] s1];
          cbn [store fst snd]; destruct (setJson newJson s1) as [[e2 | []] s2]]];
    destruct (onClose (props r)) as [[| e'] |];
    cbn [store editing editedValue calls fst snd app];
    rewrite <- ?app_assoc; reflexivity.
Qed.

(** C1.  When computing or applying the patch throws, the throw does
    not leave [saveEdit]; the stores are left as they were, so the text
    of the document is unchanged, and neither [setContents] nor
    [setJson] is called; the error goes to [console.error]; editing
    ends and [onClose] is called. *)
Theorem saveEdit_patch_failure (r : Render) (w : World) (nd : NodeData)
    (p : JSONPath) (original : string) (err : error) :
  nodeData r = Some nd ->
  path nd = Some p ->
  getJson (store w) = inr original ->
  patch original p (edited_value (seen_editedValue r) nd) = inl err ->
  let made :=
    Call_getJson
    :: patch_calls original p (edited_value (seen_editedValue r) nd)
    ++ Call_console_error "Failed to apply node edit:" err
    :: close_calls (props r) in
  saveEdit r w
  = (close_result (props r),
     {| store := store w; editing := false; editedValue := editedValue w;
        calls := calls w ++ made |})
  /\ ((forall e, onClose (props r) <> Some (Throws e)) -> fst (saveEdit r w) = inr tt)
  /\ getJson (store (snd (saveEdit r w))) = inr original
  /\ forallb (fun c => negb (updates_store c)) made = true
  /\ In (Call_console_error "Failed to apply node edit:" err) made
  /\ editing (snd (saveEdit r w)) = false
  /\ (onClose (props r) <> None -> In Call_onClose made).
Proof.
  intros Hnd Hp Hget Hpatch made.
  assert (Hrun : saveEdit r w
    = (close_result (props r),
       {| store := store w; editing := false; editedValue := editedValue w;
          calls := calls w ++ made |})).
  { subst made.
    rewrite (saveEdit_readable r w nd p original (selection_some r nd p Hnd Hp) Hget).
    rewrite Hpatch. cbn [app]. reflexivity. }
  rewrite Hrun. cbn [fst snd store editing].
  split; [reflexivity |].
  split.
  { intros Hquiet. unfold close_result.
    destruct (onClose (props r)) as [[| e] |]; try reflexivity.
    now elim (Hquiet e). }
  split; [exact Hget |].
  split.
  { subst made. unfold patch_calls, close_calls.
    destruct (modify _ _ _ _); destruct (onClose (props r)); reflexivity. }
  split.
  { subst made. cbn [In]. right. apply in_or_app. right. now left. }
  split; [reflexivity |].
  intros Hc. subst made. unfold close_calls.
  destruct (onClose (props r)); [| now elim Hc].
  cbn [In]. right. apply in_or_app. right. right. now left.
Qed.

(** C9.  When the patch is computed and applied, [saveEdit] calls
    [setContents] with the new text and both flags set, then [setJson]
    with the same text, in this order, whatever [setContents] answers:
    when it throws, [setJson] is still called, on the stores as
    [setContents] left them, and the throw goes no further. *)
Theorem saveEdit_patch_success (r : Render) (w : World) (nd : NodeData)
    (p : JSONPath) (original newJson : string) :
  nodeData r = Some nd ->
  path nd = Some p ->
  getJson (store w) = inr original ->
  patch original p (edited_value (seen_editedValue r) nd) = inr newJson ->
  let update := {| contents := newJson; hasChanges := true; skipUpdate := true |} in
  let mirrored := setContents update (store w) in
  let canonical := setJson newJson (snd mirrored) in
  let made :=
    Call_getJson
    :: patch_calls original p (edited_value (seen_editedValue r) nd)
    ++ Call_setContents update
    :: Call_setJson newJson
    :: match fst canonical with
       | inl e => [Call_console_error "Failed to apply node edit:" e]
       | inr _ => []
       end
    ++ close_calls (props r) in
  saveEdit r w
  = (close_result (props r),
     {| store := snd canonical; editing := false;
        editedValue := editedValue w; calls := calls w ++ made |})
  /\ ((forall e, onClose (props r) <> Some (Throws e)) -> fst (saveEdit r w) = inr tt)
  /\ In (Call_setContents update) made
  /\ In (Call_setJson newJson) made.
Proof.
  intros Hnd Hp Hget Hpatch update mirrored canonical made.
  assert (Hrun : saveEdit r w
    = (close_result (props r),
       {| store := snd canonical; editing := false;
          editedValue := editedValue w; calls := calls w ++ made |})).
  { subst made canonical mirrored update.
    rewrite (saveEdit_readable r w nd p original (selection_some r nd p Hnd Hp) Hget).
    rewrite Hpatch. cbn [app]. reflexivity. }
  split; [exact Hrun |].
  split.
  { intros Hquiet. rewrite Hrun. cbn [fst]. unfold close_result.
    destruct (onClose (props r)) as [[| e] |]; try reflexivity.
    now elim (Hquiet e). }
  subst made. split.
  - cbn [In]. right. apply in_or_app. right. now left.
  - cbn [In]. right. apply in_or_app. right. right. now left.
Qed.

(** The patch is computed on the text the store holds when Save runs:
    a render holds no text of the document, and the first two calls of
    [saveEdit] on a selected node are [getJson], on the stores as they
    are, and [modify] on the text it returned, with the path of the
    node, the value of the draft and an indentation of two blanks. *)
Theorem saveEdit_patches_current_text (r : Render) (w : World) (nd : NodeData)
    (p : JSONPath) (original : string) :
  nodeData r = Some nd ->
  path nd = Some p ->
  getJson (store w) = inr original ->
  exists rest,
    calls (snd (saveEdit r w))
    = (calls w
       ++ Call_getJson
       :: Call_modify original p (edited_value (seen_editedValue r) nd)
            {| formattingOptions := {| insertSpaces := true; tabSize := 2 |} |}
       :: rest)%list.
Proof.
  intros Hnd Hp Hget.
  rewrite (saveEdit_readable r w nd p original (selection_some r nd p Hnd Hp) Hget).
  cbn [snd calls]. unfold patch_calls. cbn [app]. eexists. reflexivity.
Qed.

(** C4, as the component has it.  [parseEdit] always has a value.  No
    throw of [JSON.parse], [modify], [applyEdits], [setContents] or
    [setJson] leaves [saveEdit], whatever these do: what [saveEdit]
    gives back depends on the selection, on [getJson] and on the
    handler [onClose] only.  Without a selected node and path it
    returns.  When [getJson] returns and the handler is absent or
    returns, it returns.  When [getJson] throws, the throw leaves
    [saveEdit] at once: nothing else is called and the session is as
    it was.  When [getJson] returns and the handler throws, that throw
    leaves [saveEdit], after the edit was processed, editing was ended
    and the handler was called last. *)
Theorem saveEdit_contains_failures (r : Render) (w : World) :
  (forall text nd, exists v, parseEdit text nd w = (inr v, w))
  /\ fst (saveEdit r w) = save_result r w
  /\ (selection (nodeData r) = None -> fst (saveEdit r w) = inr tt)
  /\ (forall original,
        getJson (store w) = inr original ->
        (forall e, onClose (props r) <> Some (Throws e)) ->
        fst (saveEdit r w) = inr tt)
  /\ (forall nd p e,
        selection (nodeData r) = Some (nd, p) ->
        getJson (store w) = inl e ->
        saveEdit r w
        = (inl e, {| store := store w; editing := editing w;
                     editedValue := editedValue w;
                     calls := calls w ++ [Call_getJson] |}))
  /\ (forall nd p original e,
        selection (nodeData r) = Some (nd, p) ->
        getJson (store w) = inr original ->
        onClose (props r) = Some (Throws e) ->
        fst (saveEdit r w) = inl e
        /\ editing (snd (saveEdit r w)) = false
        /\ exists made,
            calls (snd (saveEdit r w)) = (calls w ++ made ++ [Call_onClose])%list).
Proof.
  assert (Hresult : fst (saveEdit r w) = save_result r w).
  { unfold save_result.
    destruct (selection (nodeData r)) as [[nd p] |] eqn:Hsel;
      [| unfold saveEdit; now rewrite Hsel].
    destruct (getJson (store w)) as [e | original] eqn:Hget.
    - now rewrite (saveEdit_unreadable r w nd p e Hsel Hget).
    - now rewrite (saveEdit_readable r w nd p original Hsel Hget). }
  split.
  { intros text nd. rewrite parseEdit_value. eexists; reflexivity. }
  split; [exact Hresult |].
  split.
  { intros Hsel. rewrite Hresult. unfold save_result. now rewrite Hsel. }
  split.
  { intros original Hget Hquiet. rewrite Hresult. unfold save_result, close_result.
    rewrite Hget. destruct (selection (nodeData r)); [| reflexivity].
    destruct (onClose (props r)) as [[| e] |]; try reflexivity.
    now elim (Hquiet e). }
  split.
  { intros nd p e Hsel Hget. exact (saveEdit_unreadable r w nd p e Hsel Hget). }
  intros nd p original e Hsel Hget Hthrows.
  rewrite (saveEdit_readable r w nd p original Hsel Hget).
  cbn [fst snd editing calls]. unfold close_result, close_calls. rewrite Hthrows.
  split; [reflexivity |]. split; [reflexivity |].
  match goal with
  | |- exists made, (_ ++ Call_getJson :: ?A ++ ?B ++ _ = _)%list =>
      exists (Call_getJson :: A ++ B)%list
  end.
  cbn [app]. now rewrite <- app_assoc.
Qed.

End Saving.

(** *** The edit session *)

Section Sessions.
Context {Store : Type} `{Host Store}.

Lemma deps_eqb_eq (a b : Deps) : deps_eqb a b = true <-> a = b.
Proof.
  destruct a as [x p], b as [y q]. unfold deps_eqb. cbn [fst snd].
  rewrite andb_true_iff, Bool.eqb_true_iff. split.
  - intros [Hxy ->]. destruct x, y; try discriminate; [| reflexivity].
    apply String.eqb_eq in Hxy. now subst.
  - intros [= -> ->]. split; [| reflexivity].
    destruct y; [apply String.eqb_refl | reflexivity].
Qed.











End Sessions.

(** *** The members of the normalized object *)

Section Members.
Context {A : Type}.

Lemma get_replace_own (x k : string) (v : A) (ps : list (string * A)) :
  has_own k ps = true ->
  get_own x (replace_own k v ps) = if (x =? k)%string then Some v else get_own x ps.
Proof.
  induction ps as [| [k' v'] r IH]; cbn; [discriminate |].
  destruct (String.eqb_spec k k') as [-> | Hne]; cbn.
  - intros _. now destruct (x =? k')%string.
  - intros Hr. rewrite (IH Hr).
    destruct (String.eqb_spec x k') as [-> | _]; [| reflexivity].
    destruct (String.eqb_spec k' k) as [E | _]; [now elim Hne | reflexivity].
Qed.

Lemma get_insert_index (x k : string) (i : Z) (v : A) (ps : list (string * A)) :
  has_own k ps = false ->
  get_own x (insert_index i k v ps) = if (x =? k)%string then Some v else get_own x ps.
Proof.
  induction ps as [| [k' v'] r IH]; cbn; [reflexivity |].
  destruct (String.eqb_spec k k') as [-> | Hne]; cbn; [discriminate |].
  intros Hr.
  destruct (array_index k') as [j |]; [destruct (j <? i) |]; cbn; try reflexivity.
  rewrite (IH Hr).
  destruct (String.eqb_spec x k') as [-> | _]; [| reflexivity].
  destruct (String.eqb_spec k' k) as [E | _]; [now elim Hne | reflexivity].
Qed.

Lemma get_append (x k : string) (v : A) (ps : list (string * A)) :
  has_own k ps = false ->
  get_own x (ps ++ [(k, v)]) = if (x =? k)%string then Some v else get_own x ps.
Proof.
  induction ps as [| [k' v'] r IH]; cbn; [reflexivity |].
  destruct (String.eqb_spec k k') as [-> | Hne]; cbn; [discriminate |].
  intros Hr. rewrite (IH Hr).
  destruct (String.eqb_spec x k') as [-> | _]; [| reflexivity].
  destruct (String.eqb_spec k' k) as [E | _]; [now elim Hne | reflexivity].
Qed.

(** After [define_own k v] the key [k] holds [v] and every other key
    holds what it held. *)
Lemma get_define_own (x k : string) (v : A) (ps : list (string * A)) :
  get_own x (define_own k v ps) = if (x =? k)%string then Some v else get_own x ps.
Proof.
  unfold define_own. destruct (has_own k ps) eqn:Hk.
  - now apply get_replace_own.
  - destruct (array_index k); [now apply get_insert_index | now apply get_append].
Qed.

End Members.

Lemma get_fold_add_member (k : string) (rows : list NodeRow)
    (m : list (string * Primitive)) (found : option Primitive) :
  get_own k m = found ->
  get_own k (fold_left add_member (filter kept rows) m)
  = fold_left
      (fun found row =>
         match key row with
         | Some k' =>
             if (k =? k')%string && negb (container row) then Some (value row) else found
         | None => found
         end)
      rows found.
Proof.
  revert m found. induction rows as [| row rows IH]; intros m found Hm; [exact Hm |].
  cbn [filter fold_left]. unfold kept, has_key.
  destruct (key row) as [k' |] eqn:Hk; cbn [andb].
  - destruct (container row); cbn [negb andb fold_left].
    + rewrite andb_false_r. now apply IH.
    + rewrite andb_true_r. apply IH. unfold add_member. rewrite Hk, get_define_own.
      now destruct (k =? k')%string.
  - now apply IH.
Qed.

(** The normalizer on rows with plain keys: [{}] for no row, the bare
    value for one row without a key, and otherwise the object, printed
    with an indentation of two, that holds for each key the value of
    the last row with that key that is not a container, and nothing for
    a key no such row has. *)
Theorem normalizeNodeData_contract (rows : list NodeRow) :
  Forall plain_key rows ->
  normalizeNodeData (Some rows) = normalize_contract rows
  /\ (rows = [] -> normalizeNodeData (Some rows) = "{}")
  /\ (forall row, rows = [row] -> key row = None ->
      normalizeNodeData (Some rows) = ToString (value row))
  /\ (forall row row' rest, rows = row :: row' :: rest ->
      normalizeNodeData (Some rows) = JSON_stringify (mapping rows) 2)
  /\ (forall k, get_own k (own_props (mapping rows)) = member_of_rows k rows).
Proof.
  intros Hall. split; [now apply normalizeNodeData_plain |].
  split; [now intros -> |].
  split.
  { intros row -> Hk. unfold normalizeNodeData. cbn. now rewrite Hk. }
  split.
  { intros row row' rest ->. now rewrite normalizeNodeData_plain. }
  intros k. unfold mapping, member_of_rows. cbn [own_props].
  now apply get_fold_add_member.
Qed.

(** *** Runs on the scripted host *)

Import Scenario.

(** The built-in functions on the inputs the design names. *)
Example JSON_parse_object :
  JSON_parse ("{" ++ quoted "x" ++ ":1}") = inr (VObj [("x", VNum (of_Z 1))])
  /\ JSON_parse "42" = inr (VNum (of_Z 42))
  /\ JSON_parse (quoted "a\u00e9\n") = inr (VStr ("a" ++ utf8 233 ++ nl))
  /\ JSON_parse " [1, true, null] " = inr (VArr [VNum (of_Z 1); VBool true; VNull])
  /\ (exists e, JSON_parse "abc" = inl e)
  /\ (exists e, JSON_parse "yes" = inl e)
  /\ (exists e, JSON_parse "01" = inl e)
  /\ (exists e, JSON_parse "[1,]" = inl e)
  /\ (exists e, JSON_parse "'a'" = inl e).
Proof.
  repeat split; vm_compute; try reflexivity; eexists; reflexivity.
Qed.

Example Number_of_text :
  StringToNumber "42" = of_Z 42
  /\ StringToNumber " 0x1f " = of_Z 31
  /\ StringToNumber "-1.5e3" = of_Z (-1500)
  /\ StringToNumber "abc" = NaN
  /\ StringToNumber "12px" = NaN
  /\ StringToNumber "1e999" = S754_infinity false
  /\ StringToNumber "" = pos_zero.
Proof.
  repeat split; vm_compute; reflexivity.
Qed.

Example text_of_Number :
  map Number_toString
    [of_Z 0; of_Z 2; of_Z (-17); StringToNumber "0.1"; StringToNumber "1e21";
     StringToNumber "123456789012345680000"; StringToNumber "1e-7";
     StringToNumber "0.000001"; StringToNumber "5e-324"; NaN; S754_infinity true]
  = ["0"; "2"; "-17"; "0.1"; "1e+21"; "123456789012345680000"; "1e-7";
     "0.000001"; "5e-324"; "NaN"; "-Infinity"].
Proof.
  vm_compute. reflexivity.
Qed.

Example path_of_customer :
  jsonPathToString (Some [Key "customer"; Index (of_Z 0); Key "name"])
  = "$[" ++ quoted "customer" ++ "][0][" ++ quoted "name" ++ "]".
Proof.
  vm_compute. reflexivity.
Qed.

(** The fallback on the inputs the design names: [yes] on a boolean,
    anything on a null, [abc] on a number. *)
Example parseEdit_coercions :
  parseEdit "yes" node_flag (idle doc1) = (inr (VBool false), idle doc1)
  /\ parseEdit "anything" node_null (idle doc1) = (inr VNull, idle doc1)
  /\ parseEdit "abc" node_b (idle doc1) = (inr (VStr "abc"), idle doc1)
  /\ parseEdit "12px" node_b (idle doc1) = (inr (VStr "12px"), idle doc1)
  /\ parseEdit "0x10" node_b (idle doc1) = (inr (VNum (of_Z 16)), idle doc1)
  /\ parseEdit "true" node_flag (idle doc1) = (inr (VBool true), idle doc1).
Proof.
  repeat split; vm_compute; reflexivity.
Qed.

(** The whole cycle on the first document: Edit shows the bare value,
    the user types 2 and saves; the canonical store and the mirrored
    editor hold the second document, the editor with both flags set. *)
Example edit_cycle :
  world (@run _ host_ok [ClickEdit; Input "2"; ClickSave]
           (mount {| json := doc1; file := None |} open_props (Some node_b)))
  = {| store := {| json := doc2;
                   file := Some {| contents := doc2; hasChanges := true;
                                   skipUpdate := true |} |};
       editing := false; editedValue := "2";
       calls := [Call_getJson;
                 Call_modify doc1 [Key "a"; Key "b"] (VNum (of_Z 2)) modify_options;
                 Call_applyEdits doc1 edit_b;
                 Call_setContents
                   {| contents := doc2; hasChanges := true; skipUpdate := true |};
                 Call_setJson doc2;
                 Call_onClose] |}
  /\ editedValue
       (world (@run _ host_ok [ClickEdit]
                 (mount {| json := doc1; file := None |} open_props (Some node_b))))
     = "1".
Proof.
  split; vm_compute; reflexivity.
Qed.


(** The text [true] is JSON: it is the boolean on any node. *)
Lemma parseEdit_json_witness :
  JSON_parse "true" = inr (VBool true)
  /\ parseEdit "true" node_b (idle doc1) = (inr (VBool true), idle doc1).
Proof.
  assert (Hok : JSON_parse "true" = inr (VBool true)) by (vm_compute; reflexivity).
  split; [exact Hok |].
  exact (proj1 (parseEdit_json "true" node_b (idle doc1) (VBool true) Hok)).
Defined.

Lemma parseEdit_whitespace_number_witness :
  parseEdit blank_text node_b (idle doc1) = (inr (VNum pos_zero), idle doc1)
  /\ parseEdit "" node_b (idle doc1) = (inr (VNum pos_zero), idle doc1).
Proof.
  split.
  - apply (parseEdit_whitespace_number blank_text node_b
             {| key := None; value := PNum (of_Z 1); type := "number" |} (idle doc1)).
    + right. vm_compute. reflexivity.
    + reflexivity.
    + reflexivity.
  - apply (parseEdit_whitespace_number "" node_b
             {| key := None; value := PNum (of_Z 1); type := "number" |} (idle doc1)).
    + left. reflexivity.
    + reflexivity.
    + reflexivity.
Defined.

Lemma saveEdit_without_selection_witness :
  @saveEdit _ host_ok (shown (typing doc1 "2") None) (typing doc1 "2")
  = (inr tt, idle doc1)
  /\ @saveEdit _ host_ok (shown (typing doc1 "2") (Some node_lost)) (typing doc1 "2")
     = (inr tt, idle doc1).
Proof.
  split.
  - apply (@saveEdit_without_selection _ host_ok). left. reflexivity.
  - apply (@saveEdit_without_selection _ host_ok). right.
    exists node_lost. split; reflexivity.
Defined.

(** [modify] throws, or [applyEdits] does: the document stays the first
    one, the error is logged and the modal closes. *)
Lemma saveEdit_patch_failure_witness :
  @saveEdit _ host_patch_throws (shown (typing doc1 "2") (Some node_b)) (typing doc1 "2")
  = (inr tt,
     {| store := {| json := doc1; file := None |};
        editing := false; editedValue := "2";
        calls := [Call_getJson;
                  Call_modify doc1 [Key "a"; Key "b"] (VNum (of_Z 2)) modify_options;
                  Call_console_error "Failed to apply node edit:" oops;
                  Call_onClose] |})
  /\ @saveEdit _ host_apply_throws (shown (typing doc1 "2") (Some node_b)) (typing doc1 "2")
     = (inr tt,
        {| store := {| json := doc1; file := None |};
           editing := false; editedValue := "2";
           calls := [Call_getJson;
                     Call_modify doc1 [Key "a"; Key "b"] (VNum (of_Z 2)) modify_options;
                     Call_applyEdits doc1 edit_b;
                     Call_console_error "Failed to apply node edit:" overlap;
                     Call_onClose] |}).
Proof.
  split.
  - apply (@saveEdit_patch_failure _ host_patch_throws
             (shown (typing doc1 "2") (Some node_b)) (typing doc1 "2")
             node_b [Key "a"; Key "b"] doc1 oops); reflexivity.
  - apply (@saveEdit_patch_failure _ host_apply_throws
             (shown (typing doc1 "2") (Some node_b)) (typing doc1 "2")
             node_b [Key "a"; Key "b"] doc1 overlap); reflexivity.
Defined.

(** The mirrored editor throws: the canonical store takes the second
    document all the same, and nothing is logged. *)
Lemma saveEdit_patch_success_witness :
  @saveEdit _ host_mirror_throws (shown (typing doc1 "2") (Some node_b)) (typing doc1 "2")
  = (inr tt,
     {| store := {| json := doc2; file := None |};
        editing := false; editedValue := "2";
        calls := [Call_getJson;
                  Call_modify doc1 [Key "a"; Key "b"] (VNum (of_Z 2)) modify_options;
                  Call_applyEdits doc1 edit_b;
                  Call_setContents
                    {| contents := doc2; hasChanges := true; skipUpdate := true |};
                  Call_setJson doc2;
                  Call_onClose] |}).
Proof.
  apply (@saveEdit_patch_success _ host_mirror_throws
           (shown (typing doc1 "2") (Some node_b)) (typing doc1 "2")
           node_b [Key "a"; Key "b"] doc1 doc2); reflexivity.
Defined.



Lemma normalizeNodeData_contract_witness :
  normalizeNodeData (Some [row_a; row_items; row_count])
  = "{" ++ nl ++ "  " ++ quoted "a" ++ ": " ++ quoted "y" ++ "," ++ nl
    ++ "  " ++ quoted "count" ++ ": 3" ++ nl ++ "}".
Proof.
  rewrite (proj1 (normalizeNodeData_contract [row_a; row_items; row_count]
                    ltac:(repeat constructor; discriminate))).
  vm_compute. reflexivity.
Defined.

(** The store holds the second document when Save runs: the patch is
    computed on the second document. *)
Lemma saveEdit_patches_current_text_witness :
  exists rest,
    calls (snd (@saveEdit _ host_ok (shown (typing doc2 "7") (Some node_b))
                  (typing doc2 "7")))
    = Call_getJson
      :: Call_modify doc2 [Key "a"; Key "b"] (VNum (of_Z 7)) modify_options
      :: rest.
Proof.
  apply (@saveEdit_patches_current_text _ host_ok
           (shown (typing doc2 "7") (Some node_b)) (typing doc2 "7")
           node_b [Key "a"; Key "b"] doc2); reflexivity.
Defined.

(** C4 at a parent whose handler throws and at a store that cannot be
    read.  With the handler that throws, Save writes the second
    document and ends editing, and the throw of the handler leaves
    [saveEdit]; with the store that cannot be read, the throw of
    [getJson] leaves [saveEdit] and the edit goes on. *)
Lemma saveEdit_lets_throws_out :
  fst (@saveEdit _ host_ok
         {| props := throwing_props; nodeData := Some node_b;
            seen_editing := true; seen_editedValue := "2" |}
         (typing doc1 "2"))
  = inl unmounted
  /\ json (store (snd (@saveEdit _ host_ok
                         {| props := throwing_props; nodeData := Some node_b;
                            seen_editing := true; seen_editedValue := "2" |}
                         (typing doc1 "2"))))
     = doc2
  /\ @saveEdit _ host_unreadable (shown (typing doc1 "2") (Some node_b)) (typing doc1 "2")
     = (inl unreadable,
        {| store := {| json := doc1; file := None |};
           editing := true; editedValue := "2"; calls := [Call_getJson] |}).
Proof.
  repeat split; vm_compute; reflexivity.
Qed.

(** The draft [{oops] is not JSON and [modify] throws, with a parent
    whose handler returns: Save returns. *)
Lemma saveEdit_contains_failures_witness :
  (exists e, JSON_parse "{oops" = inl e)
  /\ fst (@saveEdit _ host_patch_throws (shown (typing doc1 "{oops") (Some node_b))
            (typing doc1 "{oops"))
     = inr tt.
Proof.
  split; [vm_compute; eexists; reflexivity |].
  apply (proj1 (proj2 (proj2 (proj2
           (@saveEdit_contains_failures _ host_patch_throws
              (shown (typing doc1 "{oops") (Some node_b)) (typing doc1 "{oops")))))
           doc1);
    [reflexivity | intros e; discriminate].
Defined.

(** ** Further properties *)

Import Observations.

Section Traces.
Context {Store : Type} `{Host Store}.

Lemma saveEdit_calls (r : Render) (w : @World Store) :
  calls (snd (saveEdit r w)) = (calls w ++ save_calls r w)%list.
Proof.
  unfold save_calls.
  destruct (selection (nodeData r)) as [[nd p] |] eqn:Hsel;
    [| unfold saveEdit; rewrite Hsel; cbn; now rewrite app_nil_r].
  destruct (getJson (store w)) as [e | original] eqn:Hget.
  - now rewrite (saveEdit_unreadable r w nd p e Hsel Hget).
  - now rewrite (saveEdit_readable r w nd p original Hsel Hget).
Qed.

Lemma paired_app (l1 l2 : list Call) :
  paired l1 -> paired l2 -> paired (l1 ++ l2).
Proof.
  induction l1 as [| c l1 IH]; intros H1 H2; [exact H2 |].
  destruct c; cbn [app paired] in *; try (now apply IH).
  destruct H1 as (Hc & Hs & Hnext & Hrest).
  repeat split; try assumption; [| now apply IH].
  destruct l1 as [| c' l1]; [contradiction |]. exact Hnext.
Qed.

Lemma paired_save_calls (r : Render) (w : @World Store) :
  paired (save_calls r w) /\ (count is_setJson (save_calls r w) <= 1)%nat.
Proof.
  unfold save_calls. destruct (selection (nodeData r)) as [[nd p] |];
    [| split; [exact I | cbn; lia]].
  destruct (getJson (store w)) as [e0 | original]; [split; [exact I | cbn; lia] |].
  unfold patch, patch_calls, close_calls. cbv zeta.
  destruct (modify _ _ _ _) as [e | edits];
    [| destruct (applyEdits _ edits) as [e | newJson];
       [| destruct (fst (setJson newJson _)) as [e2 | []]]];
    destruct (onClose (props r)); cbn; repeat split; lia.
Qed.

Lemma commit_store_calls (i : @Instance Store) :
  store (world (commit i)) = store (world i)
  /\ calls (world (commit i)) = calls (world i).
Proof.
  unfold commit. cbn [world].
  destruct (match last_deps i with
            | Some d0 => negb (deps_eqb d0 (deps_of (current i) (selectedNode i)))
            | None => true
            end); split; reflexivity.
Qed.

Lemma closeClick_calls (r : Render) (w : @World Store) :
  store (snd (closeClick r w)) = store w
  /\ calls (snd (closeClick r w)) = (calls w ++ close_calls (props r))%list.
Proof.
  unfold closeClick, close_calls, cancelEdit, bind, ret, call_onClose, setEditing,
    setEditedValue, log.
  destruct (seen_editing r), (onClose (props r)) as [[| e] |];
    cbn [store calls fst snd]; rewrite ?app_nil_r; split; reflexivity.
Qed.

(** What one event adds to the trace, and that nothing but Save changes
    the stores. *)
Lemma step_calls (i : @Instance Store) (e : Event) :
  calls (world (step i e)) = (calls (world i) ++ event_calls i e)%list
  /\ (is_save e = false -> store (world (step i e)) = store (world i)).
Proof.
  unfold step. destruct (commit_store_calls (handle e i)) as [Hs Hc].
  rewrite Hs, Hc. clear Hs Hc.
  destruct e as [n | p | | s | | |]; cbn [handle event_calls is_save world].
  - rewrite app_nil_r. split; reflexivity.
  - rewrite app_nil_r. split; reflexivity.
  - rewrite app_nil_r. destruct (editing (world i)); split; reflexivity.
  - rewrite app_nil_r. destruct (editing (world i)); split; reflexivity.
  - rewrite app_nil_r. destruct (editing (world i)); split; reflexivity.
  - destruct (editing (world i)).
    + cbn [after world]. rewrite saveEdit_calls. split; [reflexivity | discriminate].
    + rewrite app_nil_r. split; [reflexivity | discriminate].
  - cbn [after world]. destruct (closeClick_calls (render i) (world i)) as [Hs Hc].
    rewrite Hs, Hc. split; reflexivity.
Qed.

Lemma count_app {A : Type} (f : A -> bool) (l1 l2 : list A) :
  count f (l1 ++ l2) = (count f l1 + count f l2)%nat.
Proof.
  unfold count. now rewrite filter_app, length_app.
Qed.

(** Over every sequence of events the two stores are updated together,
    and the canonical store is asked to take a text at most once for
    each click on Save. *)
Theorem stores_updated_together (evs : list Event) (i : @Instance Store) :
  paired (calls (world i)) ->
  paired (calls (world (run evs i)))
  /\ (count is_setJson (calls (world (run evs i)))
      <= count is_setJson (calls (world i)) + count is_save evs)%nat.
Proof.
  revert i. induction evs as [| e evs IH]; intros i Hi; [cbn; split; [exact Hi | lia] |].
  cbn [run fold_left]. fold (run evs (step i e)).
  destruct (step_calls i e) as [Hc _].
  assert (He : paired (event_calls i e)
               /\ (count is_setJson (event_calls i e) <= count is_save [e])%nat).
  { destruct e; cbn [event_calls is_save count filter List.length];
      try (split; [exact I | cbn; lia]).
    - destruct (editing (world i)); [| split; [exact I | cbn; lia]].
      exact (paired_save_calls (render i) (world i)).
    - unfold close_calls. destruct (onClose (current i)); split; cbn; try exact I; lia. }
  destruct He as [He1 He2].
  destruct (IH (step i e)) as [IH1 IH2].
  { rewrite Hc. now apply paired_app. }
  split; [exact IH1 |].
  rewrite Hc, count_app in IH2.
  change (e :: evs) with ([e] ++ evs)%list. rewrite (count_app is_save). lia.
Qed.

(** A sequence of events without a click on Save leaves the stores as
    they are and calls nothing but [onClose], at most once for each
    click on the close button. *)
Theorem only_save_touches_document (evs : list Event) (i : @Instance Store) :
  count is_save evs = 0%nat ->
  store (world (run evs i)) = store (world i)
  /\ exists n,
      (n <= count is_close evs)%nat
      /\ calls (world (run evs i)) = (calls (world i) ++ repeat Call_onClose n)%list.
Proof.
  revert i. induction evs as [| e evs IH]; intros i Hns.
  { split; [reflexivity |]. exists 0%nat. cbn. now rewrite app_nil_r. }
  change (e :: evs) with ([e] ++ evs)%list in Hns. rewrite count_app in Hns.
  assert (He : is_save e = false).
  { destruct e; try reflexivity. cbn in Hns. lia. }
  assert (Hevs : count is_save evs = 0%nat) by lia.
  cbn [run fold_left]. fold (run evs (step i e)).
  destruct (IH (step i e) Hevs) as [Hs [n [Hn Hc]]].
  destruct (step_calls i e) as [Hce Hse].
  split; [now rewrite Hs, Hse |].
  rewrite Hc, Hce.
  destruct e; try discriminate; cbn [event_calls];
    rewrite ?app_nil_r;
    try (exists n; split; [change (?x :: evs) with ([x] ++ evs)%list;
                           rewrite count_app; lia | reflexivity]).
  unfold close_calls. destruct (onClose (current i)).
  - exists (S n). split.
    + change (ClickClose :: evs) with ([ClickClose] ++ evs)%list.
      rewrite count_app. cbn. lia.
    + rewrite <- app_assoc. reflexivity.
  - exists n. split.
    + change (ClickClose :: evs) with ([ClickClose] ++ evs)%list.
      rewrite count_app. lia.
    + now rewrite app_nil_r.
Qed.

End Traces.

(** *** Edit, type, cancel *)

Section EditCancel.
Context {Store : Type} `{Host Store}.

Lemma commit_mounted_id (i : @Instance Store) : mounted i -> commit i = i.
Proof.
  unfold mounted, commit. intros Hd. rewrite Hd.
  assert (E : deps_eqb (deps_of (current i) (selectedNode i))
                (deps_of (current i) (selectedNode i)) = true)
    by now apply deps_eqb_eq.
  rewrite E. cbn [negb]. destruct i; cbn in *. now subst.
Qed.

Lemma in_session_id (i : @Instance Store) :
  in_session (editing (world i)) (editedValue (world i)) i = i.
Proof.
  destruct i as [[s e v c] p n d]. reflexivity.
Qed.

Lemma step_edit (i : @Instance Store) :
  mounted i -> editing (world i) = false ->
  step i ClickEdit = in_session true (initialContent (render i)) i.
Proof.
  intros Hm He. unfold step. cbn [handle]. rewrite He.
  rewrite commit_mounted_id; [reflexivity | exact Hm].
Qed.

Lemma step_input (i : @Instance Store) (d s : string) :
  mounted i -> step (in_session true d i) (Input s) = in_session true s i.
Proof.
  intros Hm. unfold step. cbn [handle in_session world editing].
  rewrite commit_mounted_id; [reflexivity | exact Hm].
Qed.

Lemma step_cancel (i : @Instance Store) (d : string) :
  mounted i -> step (in_session true d i) ClickCancel = in_session false "" i.
Proof.
  intros Hm. unfold step. cbn [handle in_session world editing].
  rewrite commit_mounted_id; [reflexivity | exact Hm].
Qed.

Lemma last_cons (s d : string) (texts : list string) :
  last (s :: texts) d = last texts s.
Proof.
  revert s d. induction texts as [| t texts IH]; intros s d; [reflexivity |].
  change (last (s :: t :: texts) d) with (last (t :: texts) d).
  rewrite (IH t d). symmetry. apply IH.
Qed.

Lemma run_inputs (i : @Instance Store) (texts : list string) (d : string) :
  mounted i ->
  run (map Input texts) (in_session true d i) = in_session true (last texts d) i.
Proof.
  intros Hm. revert d. induction texts as [| s texts IH]; intros d; [reflexivity |].
  cbn [map run fold_left]. fold (run (map Input texts) (step (in_session true d i) (Input s))).
  now rewrite (step_input i d s Hm), IH, last_cons.
Qed.

(** From an idle, mounted modal, Edit opens the text area on the text
    the read-only panel showed, the text area then shows whatever is
    typed, and Cancel after any typing brings the component back to the
    state it was in before Edit: same stores, same trace, same view. *)
Theorem edit_cancel_round_trip (i : @Instance Store) (texts : list string) :
  mounted i ->
  idle_session (world i) ->
  content (view (render i)) = CodeHighlight (initialContent (render i))
  /\ content (view (render (step i ClickEdit))) = Textarea (initialContent (render i))
  /\ content (view (render (run (ClickEdit :: map Input texts) i)))
     = Textarea (last texts (initialContent (render i)))
  /\ run (ClickEdit :: map Input texts ++ [ClickCancel]) i = i.
Proof.
  intros Hm [He Hv].
  assert (Hrun : run (ClickEdit :: map Input texts) i
                 = in_session true (last texts (initialContent (render i))) i).
  { cbn [run fold_left]. fold (run (map Input texts) (step i ClickEdit)).
    rewrite (step_edit i Hm He). now apply run_inputs. }
  split.
  { unfold view, render. cbn [content seen_editing]. now rewrite He. }
  split.
  { rewrite (step_edit i Hm He). reflexivity. }
  split.
  { rewrite Hrun. reflexivity. }
  change (ClickEdit :: map Input texts ++ [ClickCancel])
    with ((ClickEdit :: map Input texts) ++ [ClickCancel])%list.
  unfold run in *. rewrite fold_left_app, Hrun. cbn [fold_left].
  rewrite (step_cancel i _ Hm), <- He, <- Hv. apply in_session_id.
Qed.

End EditCancel.

(** *** Paths of parents and children *)

Lemma jsonPathToString_text (segs : list Segment) :
  jsonPathToString (Some segs) = "$" ++ path_text segs.
Proof.
  destruct segs as [| seg rest]; [reflexivity |].
  unfold jsonPathToString. now rewrite <- join_brackets.
Qed.

Lemma path_text_app (p q : list Segment) :
  path_text (p ++ q)%list = path_text p ++ path_text q.
Proof.
  induction p as [| seg p IH]; [reflexivity |].
  cbn [app path_text]. now rewrite IH, append_assoc.
Qed.

Lemma prefix_append (a b : string) : prefix a (a ++ b) = true.
Proof.
  induction a as [| c a IH]; cbn; [now destruct b |].
  destruct (ascii_dec c c) as [_ | Hne]; [exact IH | now elim Hne].
Qed.

(** The text of a path continues the text of each of its prefixes: the
    path of a child is written as the path of its parent followed by
    the last segment in brackets. *)
Theorem jsonPathToString_extends (p q : list Segment) :
  jsonPathToString (Some (p ++ q)%list) = jsonPathToString (Some p) ++ path_text q
  /\ (forall seg,
         jsonPathToString (Some (p ++ [seg])%list) = jsonPathToString (Some p) ++ bracketed seg)
  /\ prefix (jsonPathToString (Some p)) (jsonPathToString (Some (p ++ q)%list)) = true.
Proof.
  assert (Happ : forall q', jsonPathToString (Some (p ++ q')%list)
                            = jsonPathToString (Some p) ++ path_text q').
  { intros q'. rewrite !jsonPathToString_text, path_text_app.
    cbn [append]. reflexivity. }
  split; [apply Happ |].
  split.
  { intros seg. rewrite Happ. cbn [path_text]. now rewrite append_empty_r. }
  rewrite Happ. apply prefix_append.
Qed.

(** *** The members of the assigned object, for any rows *)

Section Keys.
Context {A : Type}.

Lemma has_own_get (k : string) (ps : list (string * A)) :
  has_own k ps = match get_own k ps with Some _ => true | None => false end.
Proof.
  induction ps as [| [k' v'] r IH]; cbn; [reflexivity |].
  destruct (k =? k')%string; [reflexivity | exact IH].
Qed.

Lemma has_own_In (k : string) (ps : list (string * A)) :
  has_own k ps = true <-> In k (map fst ps).
Proof.
  induction ps as [| [k' v'] r IH]; cbn; [split; [discriminate | tauto] |].
  destruct (String.eqb_spec k k') as [-> | Hne]; cbn; [tauto |].
  rewrite IH. split; [tauto | intros [E | Hin]; [now elim Hne | exact Hin]].
Qed.

Lemma keys_replace_own (k : string) (v : A) (ps : list (string * A)) :
  map fst (replace_own k v ps) = map fst ps.
Proof.
  induction ps as [| [k' v'] r IH]; cbn; [reflexivity |].
  destruct (k =? k')%string; cbn; [reflexivity | now rewrite IH].
Qed.

Lemma In_insert_index (x k : string) (i : Z) (v : A) (ps : list (string * A)) :
  In x (map fst (insert_index i k v ps)) <-> k = x \/ In x (map fst ps).
Proof.
  induction ps as [| [k' v'] r IH]; cbn; [tauto |].
  destruct (array_index k') as [j |]; [destruct (j <? i) |]; cbn; rewrite ?IH; tauto.
Qed.

Lemma NoDup_insert_index (k : string) (i : Z) (v : A) (ps : list (string * A)) :
  ~ In k (map fst ps) -> NoDup (map fst ps) -> NoDup (map fst (insert_index i k v ps)).
Proof.
  induction ps as [| [k' v'] r IH]; cbn; intros Hk Hnd.
  - constructor; [tauto | constructor].
  - inversion Hnd as [| ? ? Hk' Hr]; subst.
    assert (Hnew : NoDup (k :: k' :: map fst r)).
    { constructor; [cbn; tauto | exact Hnd]. }
    destruct (array_index k') as [j |]; [destruct (j <? i) |]; cbn; try exact Hnew.
    constructor; [| apply IH; tauto].
    rewrite In_insert_index. intros [E | Hin]; [| now elim Hk'].
    apply Hk. now left.
Qed.

Lemma NoDup_append (k : string) (v : A) (ps : list (string * A)) :
  ~ In k (map fst ps) -> NoDup (map fst ps) -> NoDup (map fst (ps ++ [(k, v)])%list).
Proof.
  induction ps as [| [k' v'] r IH]; cbn; intros Hk Hnd.
  - constructor; [tauto | constructor].
  - inversion Hnd as [| ? ? Hk' Hr]; subst.
    constructor; [| apply IH; tauto].
    rewrite map_app, in_app_iff. cbn. intros [Hin | [E | []]]; [now elim Hk' |].
    apply Hk. now left.
Qed.

(** [define_own] keeps the keys of an object distinct. *)
Lemma NoDup_define_own (k : string) (v : A) (ps : list (string * A)) :
  NoDup (map fst ps) -> NoDup (map fst (define_own k v ps)).
Proof.
  intros Hnd. unfold define_own. destruct (has_own k ps) eqn:Hk.
  - now rewrite keys_replace_own.
  - assert (Hn : ~ In k (map fst ps)).
    { rewrite <- has_own_In, Hk. discriminate. }
    destruct (array_index k); [now apply NoDup_insert_index | now apply NoDup_append].
Qed.

End Keys.

(** An assignment either defines the property or, for [__proto__] on an
    object that still has its prototype, leaves the properties alone. *)
Lemma set_property_cases (k : string) (v : Primitive) (o : object) :
  (own_props (set_property k v o) = define_own k v (own_props o)
   /\ proto_null (set_property k v o) = proto_null o)
  \/ (k = "__proto__" /\ proto_null o = false /\ has_own k (own_props o) = false
      /\ own_props (set_property k v o) = own_props o
      /\ proto_null (set_property k v o) = match v with PNull => true | _ => false end).
Proof.
  unfold set_property, define_own.
  destruct (has_own k (own_props o)) eqn:Hk; [left; now split |].
  destruct (String.eqb_spec k "__proto__") as [-> | Hne]; cbn [andb]; [| left; now split].
  destruct (proto_null o) eqn:Hp; cbn [negb]; [left; now split |].
  right. destruct v; cbn [proto_null own_props]; rewrite ?Hp; now repeat split.
Qed.

Lemma object_eta (o : object) (b : bool) (ps : list (string * Primitive)) :
  proto_null o = b -> own_props o = ps -> o = {| proto_null := b; own_props := ps |}.
Proof.
  destruct o. cbn. now intros -> ->.
Qed.

Lemma assign_row_effect (o : object) (row : NodeRow) :
  (has_own "__proto__" (own_props o) = true -> proto_null o = true) ->
  row_effect o row (assign_row o row).
Proof.
  intros Hinv. unfold assign_row.
  destruct (container row) eqn:Hc; pose proof Hc as Hcont; unfold container in Hc.
  { apply orb_true_iff in Hc.
    replace (negb (type row =? "array")%string && negb (type row =? "object")%string)
      with false; [apply row_skipped; now left |].
    destruct Hc as [-> | ->]; [reflexivity | now rewrite andb_false_r]. }
  apply orb_false_iff in Hc. destruct Hc as [Ha Ho]. rewrite Ha, Ho. cbn [negb andb].
  destruct (falsy_key (key row)) eqn:Hf; [apply row_skipped; now right |].
  destruct (key row) as [k |] eqn:Hk; [| discriminate].
  assert (Hne : k <> "") by (intros ->; discriminate).
  destruct (set_property_cases k (value row) o)
    as [[Hps Hpn] | (-> & Hpn & Hown & Hps & Hnew)].
  - rewrite (object_eta _ _ _ Hpn Hps). apply row_defined; try assumption.
    intros ->. destruct (has_own "__proto__" (own_props o)) eqn:Hown; [now apply Hinv |].
    revert Hps. unfold set_property. rewrite Hown. cbn [String.eqb Ascii.eqb andb].
    destruct (proto_null o); [reflexivity |]. cbn [negb andb].
    intros Hps. exfalso.
    assert (Hg : get_own "__proto__" (own_props o) = Some (value row)).
    { destruct (value row); cbn [own_props] in Hps; rewrite Hps at 1;
        now rewrite get_define_own, String.eqb_refl. }
    rewrite has_own_get, Hg in Hown. discriminate.
  - assert (Hn : nulls_proto row = match value row with PNull => true | _ => false end).
    { unfold nulls_proto. rewrite Hcont, Hk. cbn [negb andb]. now destruct (value row). }
    rewrite <- Hn in Hnew. rewrite (object_eta _ _ _ Hnew Hps).
    now apply row_proto.
Qed.

Lemma well_keyed_effect (o o' : object) (row : NodeRow) :
  well_keyed o -> row_effect o row o' -> well_keyed o'.
Proof.
  intros (Hnd & He & Hp) [Hskip | k Hc Hk Hne Hpk | Hc Hk Hpn Hown]; [now repeat split | |].
  - repeat split; cbn [own_props proto_null].
    + now apply NoDup_define_own.
    + rewrite get_define_own. destruct (String.eqb_spec "" k) as [E | _]; [now elim Hne | exact He].
    + rewrite has_own_get, get_define_own.
      destruct (String.eqb_spec "__proto__" k) as [<- | _]; [intros _; now apply Hpk |].
      rewrite <- has_own_get. exact Hp.
  - repeat split; cbn [own_props proto_null]; try assumption.
    rewrite Hown. discriminate.
Qed.

Lemma well_keyed_fold (rows : list NodeRow) (o : object) :
  well_keyed o -> well_keyed (fold_left assign_row rows o).
Proof.
  revert o. induction rows as [| row rows IH]; intros o Ho; [exact Ho |].
  cbn [fold_left]. apply IH. apply (well_keyed_effect o _ row Ho).
  apply assign_row_effect. apply Ho.
Qed.

Lemma member_fold (k : string) (rows : list NodeRow) (o : object)
    (found : option Primitive) :
  k <> "" -> k <> "__proto__" ->
  get_own k (own_props o) = found ->
  get_own k (own_props (fold_left assign_row rows o))
  = fold_left
      (fun found row =>
         match key row with
         | Some k' =>
             if (k =? k')%string && negb (container row) then Some (value row) else found
         | None => found
         end)
      rows found.
Proof.
  intros Hne Hnp. revert o found.
  induction rows as [| row rows IH]; intros o found Hg; [exact Hg |].
  cbn [fold_left]. apply IH. unfold assign_row.
  destruct (container row) eqn:Hc; unfold container in Hc.
  { apply orb_true_iff in Hc.
    replace (negb (type row =? "array")%string && negb (type row =? "object")%string)
      with false
      by (destruct Hc as [-> | ->]; [reflexivity | now rewrite andb_false_r]).
    destruct (key row); cbn [negb]; rewrite ?andb_false_r; exact Hg. }
  apply orb_false_iff in Hc. destruct Hc as [Ha Ho]. rewrite Ha, Ho. cbn [negb andb].
  destruct (key row) as [k' |]; [| exact Hg].
  rewrite andb_true_r.
  destruct k' as [| c k']; cbn [falsy_key is_empty].
  { destruct (String.eqb_spec k "") as [E | _]; [now elim Hne | exact Hg]. }
  destruct (set_property_cases (String c k') (value row) o)
    as [[Hps _] | (E & _ & _ & Hps & _)]; rewrite Hps.
  - rewrite get_define_own. now destruct (k =? String c k')%string.
  - rewrite E. destruct (String.eqb_spec k "__proto__") as [E' | _]; [now elim Hnp | exact Hg].
Qed.

Lemma member_source (rows : list NodeRow) (o : object) (k : string) (v : Primitive) :
  get_own k (own_props (fold_left assign_row rows o)) = Some v ->
  get_own k (own_props o) = Some v
  \/ exists row, In row rows /\ key row = Some k /\ value row = v /\ container row = false.
Proof.
  revert o. induction rows as [| row rows IH]; intros o Hg; [now left |].
  cbn [fold_left] in Hg. destruct (IH _ Hg) as [Hhere | (row' & Hin & Hrow)].
  2: { right. exists row'. split; [now right | exact Hrow]. }
  clear IH Hg. revert Hhere. unfold assign_row.
  destruct (container row) eqn:Hc; unfold container in Hc.
  { apply orb_true_iff in Hc.
    replace (negb (type row =? "array")%string && negb (type row =? "object")%string)
      with false
      by (destruct Hc as [-> | ->]; [reflexivity | now rewrite andb_false_r]).
    now left. }
  assert (Hcont : container row = false) by exact Hc.
  apply orb_false_iff in Hc. destruct Hc as [Ha Ho]. rewrite Ha, Ho. cbn [negb andb].
  destruct (falsy_key (key row)); [now left |].
  destruct (key row) as [k' |] eqn:Hk; [| now left].
  destruct (set_property_cases k' (value row) o)
    as [[Hps _] | (_ & _ & _ & Hps & _)]; rewrite Hps; [| now left].
  rewrite get_define_own. destruct (String.eqb_spec k k') as [-> | _]; [| now left].
  intros [= <-]. right. exists row. repeat split; [now left | exact Hk | exact Hcont].
Qed.

Lemma proto_fold (rows : list NodeRow) (o : object) :
  (has_own "__proto__" (own_props o) = true -> proto_null o = true) ->
  proto_null (fold_left assign_row rows o) = proto_null o || existsb nulls_proto rows.
Proof.
  revert o. induction rows as [| row rows IH]; intros o Hinv;
    [now rewrite orb_false_r |].
  cbn [fold_left existsb].
  pose proof (assign_row_effect o row Hinv) as Heff.
  assert (Hinv' : has_own "__proto__" (own_props (assign_row o row)) = true ->
                  proto_null (assign_row o row) = true).
  { destruct Heff as [Hskip | k Hc Hk Hne Hpk | Hc Hk Hpn Hown]; cbn [own_props proto_null].
    - exact Hinv.
    - rewrite has_own_get, get_define_own.
      destruct (String.eqb_spec "__proto__" k) as [<- | _]; [intros _; now apply Hpk |].
      rewrite <- has_own_get. exact Hinv.
    - rewrite Hown. discriminate. }
  rewrite (IH _ Hinv'). clear IH Hinv'.
  destruct Heff as [Hskip | k Hc Hk Hne Hpk | Hc Hk Hpn Hown]; cbn [own_props proto_null].
  - replace (nulls_proto row) with false; [reflexivity |].
    unfold nulls_proto. destruct Hskip as [-> | Hf]; [reflexivity |].
    destruct (key row) as [[| c k] |]; try discriminate;
      [destruct (value row) | ]; now rewrite andb_false_r.
  - destruct (proto_null o) eqn:Hp; [reflexivity |]. cbn [orb].
    replace (nulls_proto row) with false; [reflexivity |].
    unfold nulls_proto. rewrite Hk.
    destruct (String.eqb_spec k "__proto__") as [E | _];
      [apply Hpk in E; discriminate |].
    destruct (value row); now rewrite andb_false_r.
  - rewrite Hpn. cbn [orb]. reflexivity.
Qed.

Lemma normalizeNodeData_assigned (rows : list NodeRow) :
  scalar_node rows = false ->
  normalizeNodeData (Some rows) = JSON_stringify (assigned rows) 2.
Proof.
  destruct rows as [| row [| row' rest]]; [reflexivity | | reflexivity].
  cbn [scalar_node]. intros Hk. unfold normalizeNodeData.
  cbn [List.length Nat.eqb andb]. now rewrite Hk.
Qed.

(** Unless the rows are those of a scalar, the normalizer prints the
    object the rows were assigned to.  Whatever the rows are, this
    object has distinct keys and no member with the empty key; at every key other than the
    empty one and [__proto__] it holds the value of the last row with
    that key that is not a container; every member it has is the key
    and value of a row that is not a container; and a row keyed
    [__proto__] becomes a member only after an earlier such row with the
    value [null] has removed the prototype. *)
Theorem assigned_members (rows : list NodeRow) :
  (scalar_node rows = false ->
   normalizeNodeData (Some rows) = JSON_stringify (assigned rows) 2)
  /\ NoDup (map fst (own_props (assigned rows)))
  /\ get_own "" (own_props (assigned rows)) = None
  /\ (forall k, k <> "" -> k <> "__proto__" ->
        get_own k (own_props (assigned rows)) = member_of_rows k rows)
  /\ (forall k v, get_own k (own_props (assigned rows)) = Some v ->
        exists row, In row rows /\ key row = Some k /\ value row = v
                    /\ container row = false)
  /\ proto_null (assigned rows) = existsb nulls_proto rows
  /\ (existsb nulls_proto rows = false ->
        get_own "__proto__" (own_props (assigned rows)) = None).
Proof.
  assert (H0 : well_keyed empty_object).
  { repeat split; [constructor | discriminate]. }
  destruct (well_keyed_fold rows empty_object H0) as (Hnd & He & Hp).
  assert (Hpn : proto_null (assigned rows) = existsb nulls_proto rows).
  { unfold assigned. rewrite proto_fold; [reflexivity | discriminate]. }
  split; [now apply normalizeNodeData_assigned |].
  split; [exact Hnd |]. split; [exact He |].
  split.
  { intros k Hne Hnp. unfold assigned, member_of_rows. now apply member_fold. }
  split.
  { intros k v Hg. destruct (member_source rows empty_object k v Hg) as [Hhere | Hrow];
      [discriminate | exact Hrow]. }
  split; [exact Hpn |].
  intros Hno. fold (assigned rows) in Hp. rewrite Hpn, Hno, has_own_get in Hp.
  destruct (get_own "__proto__" (own_props (assigned rows))); [| reflexivity].
  now specialize (Hp eq_refl).
Qed.

(** *** Saving a scalar node as it is *)

Lemma rev_append_length (s acc : string) :
  String.length (rev_append s acc) = (String.length s + String.length acc)%nat.
Proof.
  revert acc. induction s as [| c s IH]; intros acc; [reflexivity |].
  cbn [rev_append String.length]. rewrite IH. cbn [String.length]. lia.
Qed.

Lemma utf8_length (cp : Z) : (String.length (utf8 cp) <= 4)%nat.
Proof.
  unfold utf8.
  destruct (cp <? 128); [cbn; lia |].
  destruct (cp <? 2048); [cbn; lia |].
  destruct (cp <? 65536); cbn; lia.
Qed.

(** The text of a string literal is shorter than the literal. *)
Lemma read_string_shrinks (f : nat) (s acc str r : string) :
  read_string f s acc = Some (str, r) ->
  (String.length str + String.length r < String.length acc + String.length s)%nat.
Proof.
  revert s acc. induction f as [| f IH]; intros s acc; [discriminate |].
  cbn [read_string]. destruct s as [| c s']; [discriminate |].
  destruct (code c =? 34).
  { intros [= <- <-]. rewrite rev_append_length. cbn [String.length]. lia. }
  destruct (code c <? 32); [discriminate |].
  destruct (code c =? 92).
  - destruct s' as [| e r']; [discriminate |].
    destruct (escape_char (code e)) as [b |].
    + intros Hr. apply IH in Hr. cbn [String.length] in *. lia.
    + destruct (code e =? 117); [| discriminate].
      destruct (read_hex4 r') as [[hi r''] |] eqn:Eh; [| discriminate].
      destruct (read_unicode hi r'') as [cp r3] eqn:Eun.
      intros Hr. apply IH in Hr.
      pose proof (read_hex4_length _ _ _ Eh) as Hh.
      pose proof (read_unicode_length _ _ _ _ Eun) as Hu.
      pose proof (utf8_length cp) as H8.
      rewrite rev_append_length in Hr. cbn [String.length] in *. lia.
  - intros Hr. apply IH in Hr. cbn [String.length] in *. lia.
Qed.

Lemma parse_value_string (f : nat) (s str r : string) :
  parse_value f s = Some (VStr str, r) -> (String.length str < String.length s)%nat.
Proof.
  destruct f as [| f]; [discriminate |]. cbn [parse_value].
  destruct s as [| c s']; [discriminate |].
  destruct (code c =? 110); [destruct (prefix "null" _); discriminate |].
  destruct (code c =? 116); [destruct (prefix "true" _); discriminate |].
  destruct (code c =? 102); [destruct (prefix "false" _); discriminate |].
  destruct (code c =? 34).
  { destruct (read_string _ s' "") as [[str' r'] |] eqn:Er; [| discriminate].
    intros [= <- <-]. apply read_string_shrinks in Er. cbn [String.length] in *. lia. }
  destruct (code c =? 91).
  { destruct (after_char 93 _); [discriminate |].
    destruct (parse_value f _) as [[v r1] |]; [| discriminate].
    destruct (parse_elements f _ _) as [[l r2] |]; discriminate. }
  destruct (code c =? 123).
  { destruct (after_char 125 _); [discriminate |].
    destruct (parse_member f _) as [[[k v] r1] |]; [| discriminate].
    destruct (parse_members f _ _) as [[ps r2] |]; discriminate. }
  destruct (read_json_number _) as [[n r'] |]; discriminate.
Qed.

(** A text is never the JSON of itself as a string. *)
Lemma JSON_parse_not_self (s : string) : JSON_parse s = inr (VStr s) -> False.
Proof.
  unfold JSON_parse.
  destruct (parse_value _ (skip_json_ws s)) as [[v rest] |] eqn:Ep; [| discriminate].
  destruct (is_empty (skip_json_ws rest)); [| discriminate].
  intros [= ->]. apply parse_value_string in Ep.
  pose proof (skip_json_ws_length s). lia.
Qed.

Section Resave.
Context {Store : Type} `{Host Store}.

(** Edit and then Save with nothing typed in between: once the text of
    the document is read, [modify] is called on it with the path of the
    node and the value of the text that was shown. *)
Lemma resave_calls (i : @Instance Store) (nd : NodeData) (p : JSONPath)
    (original : string) :
  mounted i ->
  editing (world i) = false ->
  selectedNode i = Some nd ->
  path nd = Some p ->
  getJson (store (world i)) = inr original ->
  exists rest,
    calls (world (run [ClickEdit; ClickSave] i))
    = (calls (world i)
       ++ Call_getJson :: Call_modify original p (resaved nd) modify_options :: rest)%list.
Proof.
  intros Hm He Hsel Hp Hget.
  cbn [run fold_left]. rewrite (step_edit i Hm He).
  destruct (step_calls (in_session true (initialContent (render i)) i) ClickSave)
    as [Hc _].
  rewrite Hc. cbn [event_calls in_session world editing calls].
  unfold save_calls. cbn [render nodeData in_session selectedNode world
    seen_editedValue editedValue store].
  rewrite Hsel. unfold selection. rewrite Hp, Hget.
  unfold patch_calls, resaved, initialContent. cbn [render nodeData].
  rewrite Hsel. cbn [app]. eexists. reflexivity.
Qed.

(** Edit and then Save, with nothing typed in between, on a node that
    stands for a scalar (one row, without a key): the value passed to
    [modify] is the one parsed from the text of the value.  The values
    [null], [true] and [false] are written back as they are.  A string
    is written back as the same string exactly when it is not the text
    of a JSON value; when it is, that value, which is never the string
    itself, takes its place. *)
Theorem resave_scalar (i : @Instance Store) (nd : NodeData) (p : JSONPath) (row : NodeRow)
    (original : string) :
  mounted i ->
  idle_session (world i) ->
  selectedNode i = Some nd ->
  path nd = Some p ->
  text nd = Some [row] ->
  falsy_key (key row) = true ->
  getJson (store (world i)) = inr original ->
  (exists rest,
      calls (world (run [ClickEdit; ClickSave] i))
      = (calls (world i)
         ++ Call_getJson
         :: Call_modify original p (resaved nd) modify_options
         :: rest)%list)
  /\ resaved nd = edited_value (ToString (value row)) nd
  /\ (value row = PNull -> resaved nd = VNull)
  /\ (forall b, value row = PBool b -> resaved nd = VBool b)
  /\ (forall s, value row = PStr s -> type row = "string" ->
        (forall e, JSON_parse s = inl e -> resaved nd = VStr s)
        /\ (forall v, JSON_parse s = inr v -> resaved nd = v /\ (v = VStr s -> False))).
Proof.
  intros Hm [He Hv] Hsel Hp Ht Hk Hget.
  assert (Hinit : normalizeNodeData (Some (rows_of (Some nd))) = ToString (value row)).
  { unfold rows_of. rewrite Ht. unfold normalizeNodeData.
    cbn [List.length Nat.eqb andb]. now rewrite Hk. }
  split; [exact (resave_calls i nd p original Hm He Hsel Hp Hget) |].
  unfold resaved. rewrite Hinit.
  split; [reflexivity |].
  split.
  { intros ->. reflexivity. }
  split.
  { intros b ->. now destruct b. }
  intros s Hs Hty. rewrite Hs. cbn [ToString]. unfold edited_value. split.
  - intros e ->. unfold firstRow. rewrite Ht. unfold coerce. now rewrite Hty.
  - intros v Hparse. rewrite Hparse. split; [reflexivity |].
    intros ->. now apply JSON_parse_not_self in Hparse.
Qed.

End Resave.

(** *** The text of an object parses back *)

Lemma read_string_step (c : ascii) (s tail acc : string) (f : nat) :
  read_string (S f) (quote_chars (String c s) ++ tail) acc
  = read_string f (quote_chars s ++ tail) (String c acc).
Proof.
  cbn [quote_chars]. rewrite append_assoc.
  generalize (quote_chars s ++ tail). intros rest.
  destruct c as [[] [] [] [] [] [] [] []]; reflexivity.
Qed.

(** Reading a quoted string gives the string back. *)
Lemma read_string_quoted (s tail acc : string) (f : nat) :
  (String.length s < f)%nat ->
  read_string f (quote_chars s ++ dq ++ tail) acc = Some (rev_append acc s, tail).
Proof.
  revert acc f. induction s as [| c s IH]; intros acc [| f] Hf;
    try (cbn [String.length] in Hf; lia).
  - reflexivity.
  - rewrite read_string_step. rewrite IH; [reflexivity |].
    cbn [String.length] in Hf. lia.
Qed.

Lemma read_string_literal (s tail : string) (g : nat) :
  (String.length (quote_chars s ++ dq ++ tail) <= g)%nat ->
  read_string g (quote_chars s ++ dq ++ tail) "" = Some (s, tail).
Proof.
  intros Hg.
  assert (Hr : read_string (S (String.length s)) (quote_chars s ++ dq ++ tail) ""
               = Some (s, tail)).
  { rewrite read_string_quoted; [reflexivity | lia]. }
  apply read_string_fuel in Hr. now apply Hr.
Qed.

(** A written value that is not a number parses to itself, whatever
    follows it, and starts with a character that is not white space. *)
Lemma parse_written_value (v : Primitive) (tail : string) (f : nat) :
  wordy v = true ->
  parse_value (S f) (SerializeJSONProperty v ++ tail) = Some (json_of v, tail)
  /\ skip_json_ws (SerializeJSONProperty v ++ tail) = SerializeJSONProperty v ++ tail.
Proof.
  intros Hw. destruct v as [| [|] | n | s]; cbn [SerializeJSONProperty json_of].
  - split; [destruct tail |]; reflexivity.
  - split; [destruct tail |]; reflexivity.
  - split; [destruct tail |]; reflexivity.
  - cbn [wordy] in Hw. apply negb_true_iff in Hw. rewrite Hw.
    split; [destruct tail |]; reflexivity.
  - split; [| reflexivity].
    unfold QuoteJSONString. rewrite !append_assoc.
    change (dq ++ quote_chars s ++ dq ++ tail)
      with (String (chr 34) (quote_chars s ++ dq ++ tail)).
    cbn [parse_value]. change (code (chr 34) =? 110) with false.
    change (code (chr 34) =? 116) with false.
    change (code (chr 34) =? 102) with false.
    change (code (chr 34) =? 34) with true. cbv iota.
    rewrite read_string_literal; [reflexivity | lia].
Qed.

Lemma parse_written_member (kv : string * Primitive) (tail : string) (f : nat) :
  wordy (snd kv) = true ->
  parse_member (S (S f)) (member_text kv ++ tail) = Some (fst kv, json_of (snd kv), tail).
Proof.
  intros Hw. destruct kv as [k v]. cbn [fst snd] in *.
  destruct (parse_written_value v tail f Hw) as [Hv Hws].
  unfold member_text, QuoteJSONString. cbn [fst snd]. rewrite !append_assoc.
  change (dq ++ quote_chars k ++ dq ++ ": " ++ SerializeJSONProperty v ++ tail)
    with (String (chr 34)
            (quote_chars k ++ dq ++ String ":" (String " " (SerializeJSONProperty v ++ tail)))).
  cbn [parse_member after_char]. change (code (chr 34) =? 34) with true. cbv iota.
  rewrite read_string_literal; [| lia].
  change (skip_json_ws (String ":" (String " " (SerializeJSONProperty v ++ tail))))
    with (String ":" (String " " (SerializeJSONProperty v ++ tail))).
  change (after_char 58 (String ":" (String " " (SerializeJSONProperty v ++ tail))))
    with (Some (String " " (SerializeJSONProperty v ++ tail))).
  cbv iota beta.
  change (skip_json_ws (String " " (SerializeJSONProperty v ++ tail)))
    with (skip_json_ws (SerializeJSONProperty v ++ tail)).
  now rewrite Hws, Hv.
Qed.

(** The members after the first are read one by one, up to the closing
    brace. *)
Lemma parse_written_members (ms : list (string * Primitive))
    (acc : list (string * JSValue)) (f : nat) :
  forallb (fun kv => wordy (snd kv)) ms = true ->
  parse_members (List.length ms + 3 + f) (skip_json_ws (members_text ms)) acc
  = Some (parsed_members ms acc, "").
Proof.
  revert acc. induction ms as [| kv ms IH]; intros acc Hw.
  - reflexivity.
  - cbn [forallb] in Hw. apply andb_true_iff in Hw. destruct Hw as [Hkv Hms].
    cbn [members_text List.length Nat.add].
    change (skip_json_ws ("," ++ nl ++ "  " ++ member_text kv ++ members_text ms))
      with (String "," (nl ++ "  " ++ member_text kv ++ members_text ms)).
    cbn [parse_members after_char]. change (code "," =? 125) with false.
    change (code "," =? 44) with true. cbv iota.
    change (skip_json_ws (nl ++ "  " ++ member_text kv ++ members_text ms))
      with (skip_json_ws (member_text kv ++ members_text ms)).
    assert (Hhead : skip_json_ws (member_text kv ++ members_text ms)
                    = member_text kv ++ members_text ms) by reflexivity.
    rewrite Hhead.
    replace (List.length ms + 3 + f)%nat with (S (S (List.length ms + 1 + f))) by lia.
    rewrite (parse_written_member kv _ _ Hkv).
    replace (S (S (List.length ms + 1 + f))) with (List.length ms + 3 + f)%nat by lia.
    now rewrite IH.
Qed.

Lemma join_cons (sep x y : string) (l : list string) :
  join sep (x :: y :: l) = x ++ sep ++ join sep (y :: l).
Proof.
  reflexivity.
Qed.

Lemma join_members (kv : string * Primitive) (ms : list (string * Primitive)) :
  join ("," ++ nl ++ "  ")
    (map (fun kv => QuoteJSONString (fst kv) ++ ":" ++ " " ++ SerializeJSONProperty (snd kv))
       (kv :: ms))
  ++ nl ++ "}"
  = member_text kv ++ members_text ms.
Proof.
  set (f := fun kv0 : string * Primitive => _).
  revert kv. induction ms as [| kv' ms IH]; intros kv; [reflexivity |].
  change (map f (kv :: kv' :: ms)) with (f kv :: f kv' :: map f ms).
  rewrite join_cons. change (f kv' :: map f ms) with (map f (kv' :: ms)).
  rewrite !append_assoc, IH. cbn [members_text].
  subst f. unfold member_text. cbv beta. now rewrite !append_assoc.
Qed.

Lemma JSON_stringify_members (o : object) (kv : string * Primitive)
    (ms : list (string * Primitive)) :
  own_props o = kv :: ms ->
  JSON_stringify o 2 = "{" ++ nl ++ "  " ++ member_text kv ++ members_text ms.
Proof.
  intros Hps. unfold JSON_stringify. rewrite Hps.
  change (spaces (Z.to_nat (Z.min 10 2))) with "  ". cbv zeta. cbn [is_empty].
  change ("{" ++ nl ++ "  "
          ++ (join ("," ++ nl ++ "  ")
                (map (fun kv0 => QuoteJSONString (fst kv0) ++ ":" ++ " "
                                 ++ SerializeJSONProperty (snd kv0)) (kv :: ms))
              ++ nl ++ "}")
          = "{" ++ nl ++ "  " ++ member_text kv ++ members_text ms).
  now rewrite join_members.
Qed.

(** [JSON.parse] reads the text [JSON.stringify] writes for an object
    whose values are not numbers. *)
Lemma JSON_parse_stringify (o : object) :
  forallb (fun kv => wordy (snd kv)) (own_props o) = true ->
  JSON_parse (JSON_stringify o 2) = inr (VObj (parsed_members (own_props o) [])).
Proof.
  intros Hw. destruct (own_props o) as [| kv ms] eqn:Hps.
  { unfold JSON_stringify. rewrite Hps. reflexivity. }
  rewrite (JSON_stringify_members o kv ms Hps).
  cbn [forallb] in Hw. apply andb_true_iff in Hw. destruct Hw as [Hkv Hms].
  rewrite (JSON_parse_fuel _ (S (List.length ms + 3 + 0)) (VObj (parsed_members (kv :: ms) [])) "");
    [reflexivity |].
  change (skip_json_ws ("{" ++ nl ++ "  " ++ member_text kv ++ members_text ms))
    with (String "{" (nl ++ "  " ++ member_text kv ++ members_text ms)).
  cbn [parse_value].
  change (code "{" =? 110) with false. change (code "{" =? 116) with false.
  change (code "{" =? 102) with false. change (code "{" =? 34) with false.
  change (code "{" =? 91) with false. change (code "{" =? 123) with true.
  cbv iota.
  change (skip_json_ws (nl ++ "  " ++ member_text kv ++ members_text ms))
    with (member_text kv ++ members_text ms).
  change (after_char 125 (member_text kv ++ members_text ms)) with (@None string).
  cbv iota.
  replace (List.length ms + 3 + 0)%nat with (S (S (List.length ms + 1))) by lia.
  rewrite (parse_written_member kv _ _ Hkv).
  replace (S (S (List.length ms + 1))) with (List.length ms + 3 + 0)%nat by lia.
  now rewrite (parse_written_members ms _ 0 Hms).
Qed.

Lemma get_parsed_members (k : string) (ms : list (string * Primitive))
    (acc : list (string * JSValue)) :
  NoDup (map fst ms) ->
  get_own k (parsed_members ms acc)
  = match get_own k ms with
    | Some v => Some (json_of v)
    | None => get_own k acc
    end.
Proof.
  revert acc. induction ms as [| [k0 v0] ms IH]; intros acc Hnd; [reflexivity |].
  inversion Hnd as [| ? ? Hk0 Hms]; subst.
  cbn [parsed_members fold_left fst snd get_own].
  fold (parsed_members ms (define_own k0 (json_of v0) acc)).
  rewrite (IH _ Hms), get_define_own.
  destruct (String.eqb_spec k k0) as [-> | _]; [| reflexivity].
  destruct (get_own k0 ms) eqn:Hg; [| reflexivity].
  exfalso. apply Hk0. apply has_own_In. now rewrite has_own_get, Hg.
Qed.

Lemma get_own_In {A : Type} (k : string) (v : A) (ps : list (string * A)) :
  NoDup (map fst ps) -> In (k, v) ps -> get_own k ps = Some v.
Proof.
  induction ps as [| [k' v'] r IH]; cbn; intros Hnd Hin; [contradiction |].
  inversion Hnd as [| ? ? Hk' Hr]; subst.
  destruct Hin as [[= -> ->] | Hin]; [now rewrite String.eqb_refl |].
  destruct (String.eqb_spec k k') as [-> | _]; [| now apply IH].
  exfalso. apply Hk'. now apply (in_map fst) in Hin.
Qed.

Lemma assigned_wordy (rows : list NodeRow) :
  forallb (fun row => container row || wordy (value row)) rows = true ->
  forallb (fun kv => wordy (snd kv)) (own_props (assigned rows)) = true.
Proof.
  intros Hw. rewrite forallb_forall in Hw. apply forallb_forall. intros [k v] Hin.
  assert (H0 : well_keyed empty_object).
  { repeat split; [constructor | discriminate]. }
  destruct (well_keyed_fold rows empty_object H0) as (Hnd & _ & _).
  fold (assigned rows) in Hnd.
  apply (get_own_In k v _ Hnd) in Hin.
  destruct (member_source rows empty_object k v Hin)
    as [Hhere | (row & Hrow & _ & Hv & Hc)]; [discriminate |].
  specialize (Hw row Hrow). rewrite Hc, Hv in Hw. exact Hw.
Qed.

Section ObjectNodes.
Context {Store : Type} `{Host Store}.

(** The text shown for a node that is not a scalar, when none of its
    rows other than containers holds a number, is the JSON of an
    object, and that object has exactly the members of the object the
    normalizer printed: for each key other than the empty one and
    [__proto__], the value of the last row with this key that is not a
    container, and no member where only containers have the key.  Edit
    and then Save with nothing typed in between, on a mounted modal
    that shows such a node with a path, calls [modify] on the text
    [getJson] returned with the path of the node and this object: the
    children of the node that are arrays or objects are not in the
    value written. *)
Theorem object_text_parses (rows : list NodeRow) (nd : NodeData) :
  scalar_node rows = false ->
  forallb (fun row => container row || wordy (value row)) rows = true ->
  text nd = Some rows ->
  exists ps,
    JSON_parse (normalizeNodeData (Some rows)) = inr (VObj ps)
    /\ resaved nd = VObj ps
    /\ (forall k, get_own k ps = option_map json_of (get_own k (own_props (assigned rows))))
    /\ (forall k, k <> "" -> k <> "__proto__" ->
          get_own k ps = option_map json_of (member_of_rows k rows))
    /\ (forall (i : @Instance Store) (p : JSONPath) (original : string),
          mounted i ->
          editing (world i) = false ->
          selectedNode i = Some nd ->
          path nd = Some p ->
          getJson (store (world i)) = inr original ->
          exists rest,
            calls (world (run [ClickEdit; ClickSave] i))
            = (calls (world i)
               ++ Call_getJson
               :: Call_modify original p (VObj ps) modify_options
               :: rest)%list).
Proof.
  intros Hobj Hw Ht.
  exists (parsed_members (own_props (assigned rows)) []).
  assert (Hparse : JSON_parse (normalizeNodeData (Some rows))
                   = inr (VObj (parsed_members (own_props (assigned rows)) []))).
  { rewrite (normalizeNodeData_assigned rows Hobj).
    apply JSON_parse_stringify. now apply assigned_wordy. }
  assert (H0 : well_keyed empty_object).
  { repeat split; [constructor | discriminate]. }
  destruct (well_keyed_fold rows empty_object H0) as (Hnd & _ & _).
  fold (assigned rows) in Hnd.
  assert (Hget : forall k, get_own k (parsed_members (own_props (assigned rows)) [])
                           = option_map json_of (get_own k (own_props (assigned rows)))).
  { intros k. rewrite (get_parsed_members k _ [] Hnd).
    now destruct (get_own k (own_props (assigned rows))). }
  assert (Hsave : resaved nd = VObj (parsed_members (own_props (assigned rows)) [])).
  { unfold resaved, edited_value, rows_of. rewrite Ht, Hparse. reflexivity. }
  split; [exact Hparse |].
  split; [exact Hsave |].
  split; [exact Hget |].
  split.
  { intros k Hne Hnp. rewrite Hget. unfold assigned, member_of_rows.
    now rewrite (member_fold k rows empty_object None Hne Hnp eq_refl). }
  intros i p original Hm He Hsel Hp Hread. rewrite <- Hsave.
  exact (resave_calls i nd p original Hm He Hsel Hp Hread).
Qed.

End ObjectNodes.

(** *** Property names are written as they are *)

Lemma unquoted_split (s s' r r' : string) :
  has_dq s = false -> has_dq s' = false ->
  s ++ dq ++ r = s' ++ dq ++ r' -> s = s' /\ r = r'.
Proof.
  revert s'. induction s as [| c s IH]; intros [| c' s'] Hs Hs' E; cbn in *.
  - injection E as ->. now split.
  - injection E as <- _. now rewrite Ascii.eqb_refl in Hs'.
  - injection E as -> _. now rewrite Ascii.eqb_refl in Hs.
  - injection E as -> E. apply orb_false_iff in Hs, Hs'.
    destruct (IH s' (proj2 Hs) (proj2 Hs') E) as [-> ->]. now split.
Qed.

Lemma path_text_unquoted (p q : JSONPath) :
  unquoted_keys p = true -> unquoted_keys q = true ->
  path_text p = path_text q -> p = q.
Proof.
  revert q. induction p as [| [s | n] p IH]; intros [| [s' | n'] q] Hp Hq E;
    try discriminate; [reflexivity |].
  cbn [unquoted_keys forallb] in Hp, Hq.
  apply andb_true_iff in Hp, Hq. destruct Hp as [Hs Hp], Hq as [Hs' Hq].
  apply negb_true_iff in Hs, Hs'.
  change (String "[" (String (chr 34) ((s ++ dq ++ "]") ++ path_text p))
          = String "[" (String (chr 34) ((s' ++ dq ++ "]") ++ path_text q))) in E.
  injection E as E. rewrite !append_assoc in E.
  destruct (unquoted_split s s' ("]" ++ path_text p) ("]" ++ path_text q) Hs Hs' E)
    as [-> E'].
  cbn [append] in E'. injection E' as E'. now rewrite (IH q Hp Hq E').
Qed.

(** [jsonPathToString] writes a property name between double quotes
    without escaping anything in it.  So one name that holds the text
    of a quote, a closing and an opening bracket and a quote reads as
    two names, and the text of a path does not tell the path; it does
    on the paths of property names that hold no double quote. *)
Theorem jsonPathToString_keys_unescaped :
  (forall (p : JSONPath) (a b : string),
      jsonPathToString (Some (p ++ [Key (a ++ dq ++ "][" ++ dq ++ b)])%list)
      = jsonPathToString (Some (p ++ [Key a; Key b])%list))
  /\ (forall p q : JSONPath,
        unquoted_keys p = true -> unquoted_keys q = true ->
        jsonPathToString (Some p) = jsonPathToString (Some q) -> p = q).
Proof.
  split.
  - intros p a b. rewrite !jsonPathToString_text, !path_text_app.
    cbn [path_text bracketed]. now rewrite !append_assoc.
  - intros p q Hp Hq E. rewrite !jsonPathToString_text in E.
    injection E as E. now apply path_text_unquoted.
Qed.

(** *** The close button, a node selected again, and the panel *)

Section Inputs.
Context {Store : Type} `{Host Store}.

(** The close button does what Cancel and then the close button do:
    editing ends, the draft of a running edit is dropped, the stores
    are not touched, and [onClose] is the only call. *)
Theorem close_is_cancel_then_close (i : @Instance Store) :
  mounted i ->
  run [ClickClose] i = run [ClickCancel; ClickClose] i
  /\ editing (world (step i ClickClose)) = false
  /\ (editing (world i) = true -> editedValue (world (step i ClickClose)) = "")
  /\ store (world (step i ClickClose)) = store (world i)
  /\ calls (world (step i ClickClose)) = (calls (world i) ++ close_calls (current i))%list.
Proof.
  intros Hm.
  assert (Hstep : step i ClickClose
                  = after (closeClick (render i)) i).
  { unfold step. cbn [handle]. now apply commit_mounted_id. }
  split.
  { cbn [run fold_left]. rewrite Hstep.
    destruct (editing (world i)) eqn:He.
    - rewrite <- (in_session_id i), He. rewrite (step_cancel i _ Hm).
      unfold step. cbn [handle]. rewrite !commit_mounted_id by exact Hm.
      reflexivity.
    - assert (Hc : step i ClickCancel = i).
      { unfold step. cbn [handle]. rewrite He. now apply commit_mounted_id. }
      now rewrite Hc, Hstep. }
  rewrite Hstep. unfold after. cbn [world].
  destruct (closeClick_calls (render i) (world i)) as [Hs Hc].
  assert (Hsession : editing (snd (closeClick (render i) (world i))) = false
                     /\ (editing (world i) = true ->
                         editedValue (snd (closeClick (render i) (world i))) = "")).
  { unfold closeClick, cancelEdit, bind, ret, call_onClose, setEditing, setEditedValue,
      log, render. cbn [seen_editing props].
    destruct (editing (world i)) eqn:He; destruct (onClose (current i)) as [[| e] |];
      cbn; split; first [reflexivity | exact He | discriminate]. }
  destruct Hsession as [Hoff Hdraft].
  repeat split; assumption.
Qed.

(** A node selected again under the same identity, with other rows or
    another path, does not end a running edit: the draft stays, and
    Save then writes the value of that draft at the path of the node
    now selected. *)
Theorem draft_survives_same_id (i : @Instance Store) (nd : NodeData) (p : JSONPath)
    (original : string) :
  mounted i ->
  editing (world i) = true ->
  selected_id i = Some (id nd) ->
  path nd = Some p ->
  getJson (store (world i)) = inr original ->
  world (step i (Select (Some nd))) = world i
  /\ exists rest,
      calls (world (run [Select (Some nd); ClickSave] i))
      = (calls (world i)
         ++ Call_getJson
         :: Call_modify original p
              (edited_value (editedValue (world i)) nd) modify_options
         :: rest)%list.
Proof.
  intros Hm He Hid Hp Hget.
  assert (Hsel : step i (Select (Some nd))
                 = {| world := world i; current := current i; selectedNode := Some nd;
                      last_deps := last_deps i |}).
  { unfold step, commit. cbn [handle last_deps current selectedNode world].
    rewrite Hm. unfold selected_id in Hid.
    assert (E : deps_of (current i) (selectedNode i) = deps_of (current i) (Some nd)).
    { unfold deps_of. now rewrite Hid. }
    rewrite E.
    assert (E' : deps_eqb (deps_of (current i) (Some nd)) (deps_of (current i) (Some nd))
                 = true) by now apply deps_eqb_eq.
    rewrite E'. reflexivity. }
  split; [now rewrite Hsel |].
  cbn [run fold_left]. rewrite Hsel.
  match goal with |- context [step ?j ClickSave] =>
    destruct (step_calls j ClickSave) as [Hc _]; rewrite Hc end.
  cbn [event_calls world]. rewrite He. unfold save_calls.
  cbn [render nodeData selectedNode world seen_editedValue]. unfold selection.
  rewrite Hp, Hget. unfold patch_calls. cbn [app]. eexists. reflexivity.
Qed.

Lemma step_selected (i : @Instance Store) (e : Event) :
  is_select e = false -> selectedNode (step i e) = selectedNode i.
Proof.
  unfold step, commit. cbn [selectedNode].
  destruct e; cbn [is_select handle]; try discriminate; intros _;
    try reflexivity; destruct (editing (world i)); reflexivity.
Qed.

(** The read-only panel and the path line are computed from the node
    the graph selected and from nothing else: whatever the user does
    and whatever Save writes to the document, they stay as they are
    until another node is selected. *)
Theorem panel_follows_selection (evs : list Event) (i : @Instance Store) :
  count is_select evs = 0%nat ->
  selectedNode (run evs i) = selectedNode i
  /\ initialContent (render (run evs i)) = initialContent (render i)
  /\ json_path (view (render (run evs i))) = json_path (view (render i)).
Proof.
  intros Hno.
  assert (Hsel : selectedNode (run evs i) = selectedNode i).
  { revert i. induction evs as [| e evs IH]; intros i; [reflexivity |].
    cbn [run fold_left]. fold (run evs (step i e)).
    change (e :: evs) with ([e] ++ evs)%list in Hno. rewrite count_app in Hno.
    assert (He : is_select e = false).
    { unfold count in Hno. cbn [filter] in Hno.
      destruct (is_select e); [cbn in Hno; lia | reflexivity]. }
    rewrite IH by lia. now apply step_selected. }
  split; [exact Hsel |].
  unfold initialContent, view, render. cbn [nodeData json_path]. now rewrite Hsel.
Qed.

End Inputs.

(** *** The order of the members *)

Section Order.
Context {A : Type}.

Lemma indices_first_weaken (lo hi : Z) (ks : list string) :
  lo <= hi -> indices_first hi ks = true -> indices_first lo ks = true.
Proof.
  intros Hle. destruct ks as [| k r]; [reflexivity |]. cbn [indices_first].
  destruct (array_index k) as [i |]; [| trivial].
  rewrite !andb_true_iff, !Z.leb_le. intros [Hi Hr]. split; [lia | exact Hr].
Qed.

Lemma indices_first_insert (prev i : Z) (k : string) (v : A) (ps : list (string * A)) :
  array_index k = Some i -> prev <= i ->
  indices_first prev (map fst ps) = true ->
  indices_first prev (map fst (insert_index i k v ps)) = true.
Proof.
  intros Hk. revert prev. induction ps as [| [k' v'] r IH]; intros prev Hle Hord.
  - cbn. rewrite Hk. cbn. rewrite andb_true_r. now apply Z.leb_le.
  - cbn [insert_index]. cbn [map fst indices_first] in Hord.
    destruct (array_index k') as [j |] eqn:Hk'.
    + apply andb_true_iff in Hord. destruct Hord as [Hj Hr].
      destruct (j <? i) eqn:Hlt.
      * cbn [map fst indices_first]. rewrite Hk', Hj. cbn [andb].
        apply IH; [apply Z.ltb_lt in Hlt; lia | exact Hr].
      * cbn [map fst indices_first]. rewrite Hk, Hk'.
        apply Z.ltb_ge in Hlt.
        rewrite (proj2 (Z.leb_le prev i) Hle), (proj2 (Z.leb_le i j) Hlt). exact Hr.
    + cbn [map fst indices_first]. rewrite Hk, Hk'.
      rewrite (proj2 (Z.leb_le prev i) Hle). exact Hord.
Qed.

Lemma indices_first_append (prev : Z) (k : string) (v : A) (ps : list (string * A)) :
  array_index k = None ->
  indices_first prev (map fst ps) = true ->
  indices_first prev (map fst (ps ++ [(k, v)])%list) = true.
Proof.
  intros Hk. revert prev. induction ps as [| [k' v'] r IH]; intros prev Hord.
  - cbn. now rewrite Hk.
  - cbn [app map fst indices_first] in *.
    destruct (array_index k') as [j |].
    + apply andb_true_iff in Hord. destruct Hord as [Hj Hr].
      rewrite Hj. cbn [andb]. now apply IH.
    + rewrite map_app, forallb_app, Hord. cbn. unfold is_index. now rewrite Hk.
Qed.

Lemma array_index_bound (k : string) (i : Z) : array_index k = Some i -> 0 <= i.
Proof.
  unfold array_index. destruct k as [| c r]; [discriminate |].
  destruct ((code c =? 48) && negb (is_empty r)); [discriminate |].
  destruct (read_digits (String c r) 0 0) as [[v n] rest] eqn:Er.
  destruct (is_empty rest && (v <=? 4294967294)); [| discriminate].
  intros [= <-].
  assert (Hge : forall s a cnt v' n' rest',
             0 <= a -> read_digits s a cnt = (v', n', rest') -> 0 <= v').
  { clear. induction s as [| c s IH]; intros a cnt v' n' rest' Ha; cbn [read_digits].
    - intros [= <- _ _]. exact Ha.
    - unfold is_digit, digit_val.
      destruct ((48 <=? code c) && (code c <=? 57)) eqn:Ed; [| intros [= <- _ _]; exact Ha].
      apply andb_true_iff in Ed. destruct Ed as [Hlo Hhi].
      apply Z.leb_le in Hlo, Hhi. apply IH. lia. }
  apply (Hge _ _ _ _ _ _ (Z.le_refl 0) Er).
Qed.

Lemma indices_first_define_own (k : string) (v : A) (ps : list (string * A)) :
  indices_first 0 (map fst ps) = true ->
  indices_first 0 (map fst (define_own k v ps)) = true.
Proof.
  intros Hord. unfold define_own. destruct (has_own k ps).
  - now rewrite keys_replace_own.
  - destruct (array_index k) as [i |] eqn:Hk.
    + apply indices_first_insert; [exact Hk | now apply (array_index_bound k) | exact Hord].
    + now apply indices_first_append.
Qed.

End Order.

(** Whatever the order of the rows, the object the normalizer prints
    lists the keys that are array indices first, by ascending index,
    and the other keys after them. *)
Theorem assigned_keys_ordered (rows : list NodeRow) :
  indices_first 0 (map fst (own_props (assigned rows))) = true.
Proof.
  unfold assigned.
  assert (Hfold : forall o, indices_first 0 (map fst (own_props o)) = true ->
                  indices_first 0 (map fst (own_props (fold_left assign_row rows o))) = true).
  { induction rows as [| row rows IH]; intros o Ho; [exact Ho |].
    cbn [fold_left]. apply IH. unfold assign_row.
    destruct (negb (type row =? "array")%string && negb (type row =? "object")%string);
      [| exact Ho].
    destruct (falsy_key (key row)); [exact Ho |].
    destruct (key row) as [k |]; [| exact Ho].
    destruct (set_property_cases k (value row) o)
      as [[Hps _] | (_ & _ & _ & Hps & _)]; rewrite Hps; [| exact Ho].
    now apply indices_first_define_own. }
  now apply Hfold.
Qed.

(** *** Runs of whole sessions *)

Import Scenario Cases.

(** Two saves with an edit in between, on the host that takes every
    update. *)
Lemma stores_updated_together_witness :
  paired (calls (world (@run _ host_ok [ClickSave; ClickEdit; Input "3"; ClickSave] editing_b)))
  /\ (count is_setJson
        (calls (world (@run _ host_ok [ClickSave; ClickEdit; Input "3"; ClickSave] editing_b)))
      <= 2)%nat.
Proof.
  exact (@stores_updated_together _ host_ok
           [ClickSave; ClickEdit; Input "3"; ClickSave] editing_b I).
Defined.

(** Typing, closing, editing again and cancelling: the first document
    stays, and [onClose] is called once. *)
Lemma only_save_touches_document_witness :
  store (world (@run _ host_ok [Input "5"; ClickClose; ClickEdit; ClickCancel] editing_b))
  = {| json := doc1; file := None |}
  /\ exists n,
      (n <= 1)%nat
      /\ calls (world (@run _ host_ok [Input "5"; ClickClose; ClickEdit; ClickCancel]
                         editing_b))
         = repeat Call_onClose n.
Proof.
  exact (@only_save_touches_document _ host_ok
           [Input "5"; ClickClose; ClickEdit; ClickCancel] editing_b eq_refl).
Defined.

Lemma edit_cancel_round_trip_witness :
  content (view (render (@run _ host_ok (ClickEdit :: map Input ["4"; "42"]) idle_b)))
  = Textarea "42"
  /\ @run _ host_ok (ClickEdit :: map Input ["4"; "42"] ++ [ClickCancel]) idle_b = idle_b.
Proof.
  exact (proj2 (proj2 (@edit_cancel_round_trip _ host_ok idle_b ["4"; "42"]
                         eq_refl (conj eq_refl eq_refl)))).
Defined.

(** The string [Ann] is not JSON: saved as it is shown, it stays the
    string. *)
Lemma resave_scalar_witness :
  resaved node_name = VStr "Ann"
  /\ exists rest,
      calls (world (@run _ host_ok [ClickEdit; ClickSave] idle_name))
      = Call_getJson :: Call_modify doc1 [Key "name"] (resaved node_name) modify_options
        :: rest.
Proof.
  destruct (@resave_scalar _ host_ok idle_name node_name [Key "name"]
              {| key := None; value := PStr "Ann"; type := "string" |} doc1
              eq_refl (conj eq_refl eq_refl) eq_refl eq_refl eq_refl eq_refl eq_refl)
    as (Hcalls & _ & _ & _ & Hstr).
  split; [| exact Hcalls].
  destruct (Hstr "Ann" eq_refl eq_refl) as [Hbad _].
  apply (Hbad (Error "SyntaxError" "Unexpected token or end of JSON input")).
  vm_compute. reflexivity.
Defined.

(** The node with the string [a] and the array [items]: the text shown
    is the JSON of the object with the member [a] alone, and Edit and
    then Save pass this object to [modify]. *)
Lemma object_text_parses_witness :
  exists ps,
    JSON_parse (normalizeNodeData (Some [row_a; row_items])) = inr (VObj ps)
    /\ resaved node_card = VObj ps
    /\ get_own "a" ps = Some (VStr "y")
    /\ get_own "items" ps = None
    /\ exists rest,
        calls (world (@run _ host_ok [ClickEdit; ClickSave] idle_card))
        = Call_getJson :: Call_modify doc1 [Key "card"] (VObj ps) modify_options :: rest.
Proof.
  destruct (@object_text_parses _ host_ok [row_a; row_items] node_card
              eq_refl eq_refl eq_refl)
    as (ps & Hparse & Hsave & _ & Hmembers & Hcalls).
  exists ps. split; [exact Hparse |]. split; [exact Hsave |].
  split; [rewrite Hmembers; [reflexivity | discriminate | discriminate] |].
  split; [rewrite Hmembers; [reflexivity | discriminate | discriminate] |].
  exact (Hcalls idle_card [Key "card"] doc1 eq_refl eq_refl eq_refl eq_refl eq_refl).
Defined.

Lemma close_is_cancel_then_close_witness :
  @run _ host_ok [ClickClose] editing_b = @run _ host_ok [ClickCancel; ClickClose] editing_b
  /\ calls (world (@step _ host_ok editing_b ClickClose)) = [Call_onClose].
Proof.
  destruct (@close_is_cancel_then_close _ host_ok editing_b eq_refl)
    as (Hsame & _ & _ & _ & Hcalls).
  split; [exact Hsame | exact Hcalls].
Defined.

(** The node [b] comes again under the path [c], [b] while the draft
    [2] is in the text area: Save writes 2 at the new path. *)
Lemma draft_survives_same_id_witness :
  world (@step _ host_ok editing_b (Select (Some node_b_moved))) = typing doc1 "2"
  /\ exists rest,
      calls (world (@run _ host_ok [Select (Some node_b_moved); ClickSave] editing_b))
      = Call_getJson
        :: Call_modify doc1 [Key "c"; Key "b"] (edited_value "2" node_b_moved) modify_options
        :: rest.
Proof.
  exact (@draft_survives_same_id _ host_ok editing_b node_b_moved [Key "c"; Key "b"] doc1
           eq_refl eq_refl eq_refl eq_refl eq_refl).
Defined.

(** Save replaces the document, and the panel still shows 1. *)
Lemma panel_follows_selection_witness :
  json (store (world (@run _ host_ok [ClickSave] editing_b))) = doc2
  /\ initialContent (render (@run _ host_ok [ClickSave] editing_b)) = "1".
Proof.
  split; [vm_compute; reflexivity |].
  rewrite (proj1 (proj2 (@panel_follows_selection _ host_ok [ClickSave] editing_b eq_refl))).
  vm_compute. reflexivity.
Defined.
